(** * badserv: a deliberately misbehaving HTTP server

    Shallow embedding of [main.go] and of the [slogMeta] log handler of
    github.com/ninedraft/badserv, and the properties of its action engine,
    its identifier counters and its contextual log sink.

    Go strings are byte strings and are modelled as [string]; a [[]byte]
    is a [list byte]; an [error] is modelled by its message. *)

From Stdlib Require Import ZArith NArith List Sorted Bool Lia.
From Stdlib.Strings Require Import String Ascii Byte.
From Stdlib Require Import DecimalString.
Import ListNotations.

Local Open Scope string_scope.
Local Open Scope Z_scope.
Local Open Scope list_scope.

Infix "+++" := String.append (right associativity, at level 60).

Definition error := string.

(** ** Go strings and byte slices *)

Definition LF : string := String "010" EmptyString.
Definition CR : string := String "013" EmptyString.
Definition CRLF : string := CR +++ LF.

(** [len(s)] of a Go string: its number of bytes. *)
Definition len (s : string) : Z := Z.of_nat (String.length s).

(** [[]byte(s)] *)
Definition bytes_of (s : string) : list byte := list_byte_of_string s.

(** [strconv.Itoa] *)
Definition Itoa (i : Z) : string := NilZero.string_of_int (Z.to_int i).

(** The fixed text document served by the program (a raw string literal:
    its line breaks are single line feeds). *)
Definition limeric : string :=
  "In the realm of requests and replies," +++ LF +++
  "HTTP with its status denies." +++ LF +++
  "With a 404 frown," +++ LF +++
  "It turns users to clowns," +++ LF +++
  "As they search for the page that belies." +++ LF.

(** ** [io.StringWriter] and [writeStrs] *)

Class StringWriter (B : Type) := WriteString : B -> string -> B.

(** [strings.Builder]: the text accumulated so far. *)
Definition Builder := string.
#[global] Instance Builder_StringWriter : StringWriter Builder :=
  fun b s => b +++ s.

(** [bytes.Buffer]: the unread bytes, oldest first. *)
Definition Buffer := list byte.
#[global] Instance Buffer_StringWriter : StringWriter Buffer :=
  fun b s => b ++ bytes_of s.

Definition writeStrs {B} `{StringWriter B} (b : B) (strs : list string) : B :=
  fold_left WriteString strs b.

(** ** [sync/atomic]: 64-bit signed counters *)

Module Atomic.

Definition MaxInt64 : Z := 9223372036854775807.
Definition MinInt64 : Z := -9223372036854775808.

(** Two's complement wrap-around of a mathematical integer to [int64]. *)
Definition wrap64 (z : Z) : Z := (z + 2 ^ 63) mod 2 ^ 64 - 2 ^ 63.

(** [Add] of [atomic.Int64]: atomically adds [delta] and returns the new
    value, which is also the value left in the counter. *)
Definition Add (v delta : Z) : Z := wrap64 (v + delta).

End Atomic.

(** ** [context.Context] and the values it carries *)

(** The key types declared by the program; [otherKey] stands for the keys of
    the libraries (server, local address, ...). *)
Inductive ctxKey := connIDCtxKey | requestIDKey | otherKey (n : nat).

Definition ctxKey_eqb (a b : ctxKey) : bool :=
  match a, b with
  | connIDCtxKey, connIDCtxKey => true
  | requestIDKey, requestIDKey => true
  | otherKey n, otherKey m => Nat.eqb n m
  | _, _ => false
  end.

(** A value of interface type [any], by dynamic type. *)
Inductive any :=
| AInt64 (z : Z)
| AString (s : string)
| AError (e : error)
| AOther (n : nat).

(** The chain of [WithValue] bindings, innermost first. *)
Definition Context := list (ctxKey * any).

Definition WithValue (ctx : Context) (k : ctxKey) (v : any) : Context :=
  (k, v) :: ctx.

Fixpoint Value (ctx : Context) (k : ctxKey) : option any :=
  match ctx with
  | [] => None
  | (k', v) :: parent => if ctxKey_eqb k' k then Some v else Value parent k
  end.

(** The type assertion [x.(int64)] in its two-result form. *)
Definition assert_int64 (x : option any) : option Z :=
  match x with
  | Some (AInt64 z) => Some z
  | _ => None
  end.

(** ** [log/slog] records and the [slogMeta] handler *)

Inductive Level := LevelDebug | LevelInfo | LevelWarn | LevelError.

Definition Attr := (string * any)%type.

Record Record_ := mkRecord {
  r_level : Level;
  r_message : string;
  r_attrs : list Attr
}.

(** [Add] of [slog.Record] with one key and one value. *)
Definition Record_Add (r : Record_) (key : string) (v : any) : Record_ :=
  mkRecord (r_level r) (r_message r) (r_attrs r ++ [(key, v)]).

(** A [slog.Handler], by its [Handle] method; [R] is what handling yields. *)
Definition Handler (R : Type) := Context -> Record_ -> R.

(** [Handle] of [slogMeta], over the embedded handler [inner]. *)
Definition Handle {R} (inner : Handler R) (ctx : Context) (record : Record_) : R :=
  let record :=
    match assert_int64 (Value ctx requestIDKey) with
    | Some reqID => Record_Add record "request_id" (AInt64 reqID)
    | None => record
    end in
  let record :=
    match assert_int64 (Value ctx connIDCtxKey) with
    | Some connID => Record_Add record "conn_id" (AInt64 connID)
    | None => record
    end in
  inner ctx record.

(** ** The world a request handler runs in *)

Definition StatusBadRequest : Z := 400.
Definition StatusInternalServerError : Z := 500.

(** [url.Values]: the parsed query, each key with its values in order. *)
Definition Values := list (string * list string).

Fixpoint lookup_values (v : Values) (key : string) : list string :=
  match v with
  | [] => []
  | (k, vs) :: rest => if String.eqb k key then vs else lookup_values rest key
  end.

(** [url.Values.Get]: the first value of [key], or the empty string. *)
Definition Get (v : Values) (key : string) : string :=
  match lookup_values v key with
  | [] => EmptyString
  | s :: _ => s
  end.

(** The parts of an [*http.Request] the handler reads. [dumpResult] is what
    [httputil.DumpRequest(req, true)] yields for it. *)
Record Request := mkRequest {
  Host : string;
  Query : Values;
  reqContext : Context;
  dumpResult : string + error
}.

(** What the libraries and the peer decide during one request. The writer
    [w] that [Hijack] hands out is a [bufio.Writer] on the connection: the
    peer decides what the writes of that writer to the connection do, not
    what [w.Write] returns. A write of one byte to the connection either
    sends the byte or fails. *)
Record Env := mkEnv {
  hijackResult : option error;    (* error of controller.Hijack() *)
  connWriteResult : nat -> option error;
                                  (* error of the n-th conn.Write *)
  closeResult : option error;     (* error of conn.Close() *)
  cancelled : bool                (* does ctx.Done() ever deliver? *)
}.

(** What a handler does, as seen from outside. *)
Inductive Event :=
| ELog (r : Record_)                  (* record reaching the text handler *)
| EPrintln (s : string)               (* line on standard output *)
| EHijack (r : option error)          (* controller.Hijack() *)
| ESleep (ms : Z)                     (* time.Sleep, in milliseconds *)
| EWrite (b : byte) (r : option error) (* w.Write of one byte *)
| EFlush                              (* w.Flush() is called *)
| EConnWrite (bs : list byte) (r : option error)
                                      (* conn.Write(bs), by the writer *)
| EClose (r : option error)           (* conn.Close() *)
| EResponse (code : Z) (body : string) (* response sent through rw *)
| EDropped (code : Z) (body : string) (* write through a hijacked rw *)
| EServeContent (name content : string)
| EDone.                              (* ctx.Done() delivered *)

(** The [bufio.Writer] on the hijacked connection. *)
Record Writer := mkWriter {
  buf : list byte;       (* b.buf[0:b.n], the bytes not yet flushed *)
  err : option error;    (* b.err, the error of an earlier flush *)
  sent : nat             (* calls of conn.Write so far *)
}.

(** [bufio.NewWriter(conn)] *)
Definition NewWriter : Writer := mkWriter [] None 0.

(** The size of the buffer of [bufio.NewWriter]. *)
Definition defaultBufSize : nat := 4096.

Record World := mkWorld {
  events : list Event;   (* newest first *)
  hijacked : bool;       (* has rw's connection been hijacked? *)
  writer : Writer;       (* the writer [Hijack] handed out *)
  counter : Z            (* srv.counter *)
}.

Definition trace (w : World) : list Event := rev (events w).

Definition emit (e : Event) (w : World) : World :=
  mkWorld (e :: events w) (hijacked w) (writer w) (counter w).

(** A handler either returns, or stays suspended for ever. *)
Inductive Outcome (A : Type) :=
| Returned (a : A) (w : World)
| Blocked (w : World).
Arguments Returned {A} a w.
Arguments Blocked {A} w.

Definition M (A : Type) := World -> Outcome A.

Definition ret {A} (a : A) : M A := fun w => Returned a w.

Definition bind {A B} (c : M A) (k : A -> M B) : M B :=
  fun w => match c w with
           | Returned a w' => k a w'
           | Blocked w' => Blocked w'
           end.

Notation "x <- c ;; k" := (bind c (fun x => k))
  (at level 61, c at next level, right associativity).
Notation "c ;; k" := (bind c (fun _ => k))
  (at level 61, right associativity).

Definition final {A} (o : Outcome A) : World :=
  match o with Returned _ w => w | Blocked w => w end.

Definition returns {A} (o : Outcome A) : bool :=
  match o with Returned _ _ => true | Blocked _ => false end.

Section Handler.

Variable env : Env.

(** *** The library operations the handler calls *)

(** [srv.counter.Add(delta)] *)
Definition counter_Add (delta : Z) : M Z := fun w =>
  let v := Atomic.Add (counter w) delta in
  Returned v (mkWorld (events w) (hijacked w) (writer w) v).

(** The text handler behind [slogMeta]: the record is written out. *)
Definition logHandler : Handler (M unit) := fun _ r w =>
  Returned tt (emit (ELog r) w).

(** [slog.InfoContext] and [slog.ErrorContext] on the default logger,
    whose handler is [&slogMeta{logHandler}]. *)
Definition slog_InfoContext (ctx : Context) (msg : string) (attrs : list Attr) : M unit :=
  Handle logHandler ctx (mkRecord LevelInfo msg attrs).

Definition slog_ErrorContext (ctx : Context) (msg : string) (attrs : list Attr) : M unit :=
  Handle logHandler ctx (mkRecord LevelError msg attrs).

Definition fmt_Println (s : string) : M unit := fun w =>
  Returned tt (emit (EPrintln s) w).

(** [http.Error]: a plain-text reply of [msg] and a line feed with status
    [code]; once the connection is hijacked the response writer refuses
    the header and the body ([http.ErrHijacked]) and nothing is sent. *)
Definition http_Error (msg : string) (code : Z) : M unit := fun w =>
  if hijacked w
  then Returned tt (emit (EDropped code (msg +++ LF)) w)
  else Returned tt (emit (EResponse code (msg +++ LF)) w).

Definition http_ServeContent (name content : string) : M unit := fun w =>
  Returned tt (emit (EServeContent name content) w).

(** [<-ctx.Done()] *)
Definition ctx_Done : M unit := fun w =>
  if cancelled env then Returned tt (emit EDone w) else Blocked w.

(** [controller.Hijack()]: on success the connection leaves the server's
    hands and comes with a new buffered writer on it; a connection is
    hijacked at most once. *)
Definition controller_Hijack : M (option error) := fun w =>
  let r := if hijacked w then Some "http: connection has been hijacked"%string
           else hijackResult env in
  Returned r
    (mkWorld (EHijack r :: events w)
             (match r with None => true | Some _ => hijacked w end)
             (match r with None => NewWriter | Some _ => writer w end)
             (counter w)).

Definition conn_Close : M (option error) := fun w =>
  Returned (closeResult env) (emit (EClose (closeResult env)) w).

Definition time_Sleep (ms : Z) : M unit := fun w =>
  Returned tt (emit (ESleep ms) w).

(** [Flush] of [bufio.Writer]: an earlier error is returned again; with
    nothing buffered nothing is done; otherwise the buffered bytes are
    written to the connection, and when that fails they stay in the buffer
    and the error stays in the writer. *)
Definition bufio_Flush : M (option error) := fun w =>
  match err (writer w) with
  | Some e => Returned (Some e) w
  | None =>
      match buf (writer w) with
      | [] => Returned None w
      | _ :: _ =>
          let r := connWriteResult env (sent (writer w)) in
          Returned r
            (mkWorld (EConnWrite (buf (writer w)) r :: events w) (hijacked w)
                     (match r with
                      | None => mkWriter [] None (S (sent (writer w)))
                      | Some e => mkWriter (buf (writer w)) (Some e)
                                           (S (sent (writer w)))
                      end)
                     (counter w))
      end
  end.

(** [w.Write([]byte{b})], [Write] of [bufio.Writer] for one byte: a full
    buffer is flushed first; an earlier error of the writer is returned and
    the byte dropped; otherwise the byte goes into the buffer, and nothing
    is written to the connection. *)
Definition w_Write (b : byte) : M (option error) := fun w =>
  let flushed :=
    if Nat.leb defaultBufSize (List.length (buf (writer w)))
    then bufio_Flush w else Returned None w in
  match flushed with
  | Returned _ w1 =>
      match err (writer w1) with
      | Some e => Returned (Some e) (emit (EWrite b (Some e)) w1)
      | None =>
          Returned None
            (mkWorld (EWrite b None :: events w1) (hijacked w1)
                     (mkWriter (buf (writer w1) ++ [b]) None (sent (writer w1)))
                     (counter w1))
      end
  | Blocked w1 => Blocked w1
  end.

(** [w.Flush()] *)
Definition w_Flush : M (option error) := fun w =>
  bufio_Flush (emit EFlush w).

(** *** [main.go] *)

(** The response [slowWrite] assembles in its buffer. *)
Definition resp (req : Request) : Buffer :=
  let resp := writeStrs ([] : Buffer)
    [ "HTTP/1.1 200 OK" +++ CRLF;
      "Host: "; Host req; CRLF;
      "Content-Length: "; Itoa (len limeric); CRLF;
      "Content-Type: text/plain" +++ CRLF +++ CRLF ] in
  WriteString resp limeric.

(** The loop [for _, b := range resp.Bytes()] of [slowWrite], from the
    bytes still to send. *)
Fixpoint slowWrite_loop (bs : list byte) : M (option error) :=
  match bs with
  | [] => ret None
  | b :: rest =>
      time_Sleep 100 ;;
      errWrite <- w_Write b ;;
      match errWrite with
      | Some e => ret (Some ("writing response: " +++ e))
      | None => _ <- w_Flush ;; slowWrite_loop rest
      end
  end.

Definition slowWrite (req : Request) : M (option error) :=
  let ctx := reqContext req in
  slog_InfoContext ctx "hijacking connection" [] ;;
  errHijack <- controller_Hijack ;;
  match errHijack with
  | Some e => ret (Some ("hijacking connection: " +++ e))
  | None =>
      (* defer conn.Close() *)
      r <- (slog_InfoContext ctx "writing slow response" [] ;;
            slowWrite_loop (resp req)) ;;
      _ <- conn_Close ;;
      ret r
  end.

Definition closeConn : M (option error) :=
  errHijack <- controller_Hijack ;;
  match errHijack with
  | Some e => ret (Some ("hijacking connection: " +++ e))
  | None => _ <- conn_Close ;; ret None
  end.

Definition ServeHTTP (req : Request) : M unit :=
  reqID <- counter_Add 1 ;;
  let ctx := WithValue (reqContext req) requestIDKey (AInt64 reqID) in
  match dumpResult req with
  | inr errInput =>
      slog_ErrorContext ctx "dumping request" [("!BADKEY"%string, AError errInput)] ;;
      http_Error ("bad request: " +++ errInput) StatusBadRequest
  | inl dump =>
      let msg := writeStrs (EmptyString : Builder)
                   [ "---" +++ LF; dump; LF; "---" +++ LF ] in
      fmt_Println msg ;;
      let action := Get (Query req) "action" in
      slog_InfoContext ctx "handling" [("action"%string, AString action)] ;;
      if String.eqb action "" then
        http_ServeContent "limeric.txt" limeric
      else if String.eqb action "hang" then
        ctx_Done
      else if String.eqb action "close" then
        err <- closeConn ;;
        match err with
        | Some e =>
            slog_ErrorContext ctx "closing connection" [("error"%string, AError e)] ;;
            http_Error "can't properly close connection" StatusInternalServerError
        | None => ret tt
        end
      else if String.eqb action "slow-write" then
        err <- slowWrite req ;;
        match err with
        | Some e =>
            slog_ErrorContext ctx "writing response" [("error"%string, AError e)] ;;
            http_Error "can't properly write response" StatusInternalServerError
        | None => ret tt
        end
      else
        http_Error "unknown action" StatusBadRequest
  end.

End Handler.

(** [ConnContext] of the server in [main], on the counter [connIDs]: the new
    value of the counter and the connection's context. *)
Definition ConnContext (connIDs : Z) (ctx : Context) : Z * Context :=
  let connID := Atomic.Add connIDs 1 in
  (connID, WithValue ctx connIDCtxKey (AInt64 connID)).

(** A fresh world: nothing done yet, the request counter at [c]. *)
Definition world0 (c : Z) : World := mkWorld [] false NewWriter c.

(** ** What an observer sees of a trace *)

(** The bytes written to the connection, in order: those of the writes of
    the buffered writer to the connection that succeeded. *)
Definition written_by (e : Event) : list byte :=
  match e with
  | EConnWrite bs None => bs
  | _ => []
  end.

Definition conn_written (tr : list Event) : list byte := flat_map written_by tr.

(** The bytes [w.Write] accepted into the buffer, in order. *)
Definition accepted_by (e : Event) : list byte :=
  match e with
  | EWrite b None => [b]
  | _ => []
  end.

Definition accepted (tr : list Event) : list byte := flat_map accepted_by tr.

(** The responses sent to the client through the response writer. *)
Definition response_of (e : Event) : list (Z * string) :=
  match e with
  | EResponse code body => [(code, body)]
  | _ => []
  end.

Definition responses (tr : list Event) : list (Z * string) :=
  flat_map response_of tr.

(** Operations on the transport connection itself. *)
Definition is_conn_op (e : Event) : bool :=
  match e with
  | EHijack _ | EWrite _ _ | EFlush | EConnWrite _ _ | EClose _ => true
  | _ => false
  end.

Definition conn_ops (tr : list Event) : list Event := filter is_conn_op tr.

(** Events by which bytes reach the client. *)
Definition sends_bytes (e : Event) : bool :=
  match e with
  | EConnWrite _ None | EResponse _ _ | EServeContent _ _ => true
  | _ => false
  end.

(** Calls of an action: anything beyond logging and replying with an error. *)
Definition is_action (e : Event) : bool :=
  match e with
  | EHijack _ | EWrite _ _ | EFlush | EConnWrite _ _ | EClose _ | ESleep _
  | EServeContent _ _ | EDone => true
  | _ => false
  end.

(** The log event a call of the logger with context [ctx] leaves. *)
Definition log_event (ctx : Context) (lvl : Level) (msg : string)
    (attrs : list Attr) : Event :=
  Handle (fun _ r => ELog r) ctx (mkRecord lvl msg attrs).

(** The context [ServeHTTP] works in when [srv.counter] stood at [c]. *)
Definition ctx_of (c : Z) (req : Request) : Context :=
  WithValue (reqContext req) requestIDKey (AInt64 (Atomic.Add c 1)).

(** What every readable request leaves first: the dump on standard output
    and the record of the action. *)
Definition entered (c : Z) (req : Request) (dump : string) : list Event :=
  [ EPrintln (writeStrs (EmptyString : Builder) ["---" +++ LF; dump; LF; "---" +++ LF]);
    log_event (ctx_of c req) LevelInfo "handling"
              [("action", AString (Get (Query req) "action"))] ].

(** What [slowWrite] leaves before its loop once the hijack succeeded. *)
Definition hijacking (req : Request) : list Event :=
  [ log_event (reqContext req) LevelInfo "hijacking connection" [];
    EHijack None;
    log_event (reqContext req) LevelInfo "writing slow response" [] ].

(** Log records of level [Error]. *)
Definition is_error_log (e : Event) : bool :=
  match e with
  | ELog r => match r_level r with LevelError => true | _ => false end
  | _ => false
  end.

(** The connection as the peer can watch it: its operations and the pauses
    between them. *)
Definition on_the_wire (e : Event) : bool :=
  match e with
  | ESleep _ => true
  | _ => is_conn_op e
  end.

(** Time slept during a trace, in milliseconds. *)
Fixpoint slept (tr : list Event) : Z :=
  match tr with
  | [] => 0
  | ESleep ms :: tr' => ms + slept tr'
  | _ :: tr' => slept tr'
  end.

(** The bytes written to the connection with the time slept before each,
    from time [now]: a lower bound of the moment the byte leaves, in
    milliseconds. *)
Fixpoint arrivals (now : Z) (tr : list Event) : list (Z * byte) :=
  match tr with
  | [] => []
  | ESleep ms :: tr' => arrivals (now + ms) tr'
  | EConnWrite bs None :: tr' => map (pair now) bs ++ arrivals now tr'
  | _ :: tr' => arrivals now tr'
  end.

(** The moment the [i]-th byte written to the connection leaves, at the
    earliest. *)
Definition arrival_time (tr : list Event) (i : nat) : option Z :=
  nth_error (map fst (arrivals 0 tr)) i.

(** Bytes leaving one every 100 milliseconds after time [now]. *)
Fixpoint stamps (now : Z) (bs : list byte) : list (Z * byte) :=
  match bs with
  | [] => []
  | b :: rest => (now + 100, b) :: stamps (now + 100) rest
  end.

(** What the loop of [slowWrite] does for bytes that are all written to
    the connection. *)
Definition paced (bs : list byte) : list Event :=
  flat_map (fun b => [ESleep 100; EWrite b None; EFlush; EConnWrite [b] None]) bs.

(** What the loop does for bytes that are all accepted by [w.Write], when
    the writes to the connection turn out as [f] says, from the [n]-th. *)
Fixpoint pacing (f : nat -> option error) (n : nat) (bs : list byte) : list Event :=
  match bs with
  | [] => []
  | b :: rest =>
      [ESleep 100; EWrite b None; EFlush; EConnWrite [b] (f n)]
      ++ pacing f (S n) rest
  end.

(** The response as the specification words it: status line, [Host],
    [Content-Length], [Content-Type], blank line, document. *)
Definition spec_response (host : string) : list byte :=
  bytes_of ("HTTP/1.1 200 OK" +++ CRLF) ++
  bytes_of ("Host: " +++ host +++ CRLF) ++
  bytes_of ("Content-Length: " +++ Itoa (Z.of_nat (List.length (bytes_of limeric))) +++ CRLF) ++
  bytes_of ("Content-Type: text/plain" +++ CRLF) ++
  bytes_of CRLF ++
  bytes_of limeric.

(** The head of that response, up to and with the blank line. *)
Definition spec_head (host : string) : list byte :=
  bytes_of ("HTTP/1.1 200 OK" +++ CRLF) ++
  bytes_of ("Host: " +++ host +++ CRLF) ++
  bytes_of ("Content-Length: " +++ Itoa (Z.of_nat (List.length (bytes_of limeric))) +++ CRLF) ++
  bytes_of ("Content-Type: text/plain" +++ CRLF) ++
  bytes_of CRLF.

(** ** Identifier assignment over the life of the process *)

(** The two counters: [connIDs] of [main] and [srv.counter]. *)
Record Process := mkProcess {
  connIDs : Z;
  srv_counter : Z
}.

Definition process0 : Process := mkProcess 0 0.

Inductive Assignment := NewConn | NewRequest.

Definition Assignment_eqb (a b : Assignment) : bool :=
  match a, b with
  | NewConn, NewConn | NewRequest, NewRequest => true
  | _, _ => false
  end.

(** One assignment: a connection is accepted ([ConnContext]) or a request
    is dispatched (the first statement of [ServeHTTP]). *)
Definition assign (p : Process) (a : Assignment) : Process * Z :=
  match a with
  | NewConn =>
      let connID := fst (ConnContext (connIDs p) []) in
      (mkProcess connID (srv_counter p), connID)
  | NewRequest =>
      let reqID := Atomic.Add (srv_counter p) 1 in
      (mkProcess (connIDs p) reqID, reqID)
  end.

(** The identifiers handed out by a sequence of assignments, in order. *)
Fixpoint assign_all (p : Process) (l : list Assignment) : list (Assignment * Z) :=
  match l with
  | [] => []
  | a :: l' => let (p', id) := assign p a in (a, id) :: assign_all p' l'
  end.

Definition ids (k : Assignment) (out : list (Assignment * Z)) : list Z :=
  map snd (filter (fun x => Assignment_eqb (fst x) k) out).

Definition count (k : Assignment) (l : list Assignment) : nat :=
  List.length (filter (Assignment_eqb k) l).

(** The process after [n] assignments of kind [a] from the start. *)
Definition after (n : N) (a : Assignment) : Process :=
  N.iter n (fun p => fst (assign p a)) process0.

(** The counter an assignment of kind [k] draws from. *)
Definition counter_of (k : Assignment) (p : Process) : Z :=
  match k with NewConn => connIDs p | NewRequest => srv_counter p end.

(** [c+1, c+2, ..., c+n] *)
Fixpoint upfrom (c : Z) (n : nat) : list Z :=
  match n with
  | O => []
  | S n' => (c + 1) :: upfrom (c + 1) n'
  end.

(** ** More ways to look at a trace *)

Definition is_hijack (e : Event) : bool :=
  match e with EHijack _ => true | _ => false end.

Definition is_close (e : Event) : bool :=
  match e with EClose _ => true | _ => false end.

Definition is_write (e : Event) : bool :=
  match e with EWrite _ _ => true | _ => false end.

Definition is_flush (e : Event) : bool :=
  match e with EFlush => true | _ => false end.

Definition is_println (e : Event) : bool :=
  match e with EPrintln _ => true | _ => false end.

Definition is_dropped (e : Event) : bool :=
  match e with EDropped _ _ => true | _ => false end.

Definition is_log (e : Event) : bool :=
  match e with ELog _ => true | _ => false end.

(** A library call that reported an error to the handler. *)
Definition is_failure (e : Event) : bool :=
  match e with
  | EHijack (Some _) | EWrite _ (Some _) => true
  | _ => false
  end.

(** The ways through [ServeHTTP], each with the trace it leaves, whether the
    handler returns and whether the connection ends up hijacked. *)
Inductive Path (env : Env) (req : Request) (c : Z) :
    list Event -> bool -> bool -> Prop :=
| P_unreadable e :
    dumpResult req = inr e ->
    Path env req c
      [log_event (ctx_of c req) LevelError "dumping request" [("!BADKEY", AError e)];
       EResponse StatusBadRequest (("bad request: " +++ e) +++ LF)]
      true false
| P_default dump :
    dumpResult req = inl dump -> Get (Query req) "action" = "" ->
    Path env req c
      (entered c req dump ++ [EServeContent "limeric.txt" limeric]) true false
| P_hang_cancelled dump :
    dumpResult req = inl dump -> Get (Query req) "action" = "hang" ->
    cancelled env = true ->
    Path env req c (entered c req dump ++ [EDone]) true false
| P_hang_blocked dump :
    dumpResult req = inl dump -> Get (Query req) "action" = "hang" ->
    cancelled env = false ->
    Path env req c (entered c req dump) false false
| P_close dump :
    dumpResult req = inl dump -> Get (Query req) "action" = "close" ->
    hijackResult env = None ->
    Path env req c
      (entered c req dump ++ [EHijack None; EClose (closeResult env)]) true true
| P_close_not_hijacked dump e :
    dumpResult req = inl dump -> Get (Query req) "action" = "close" ->
    hijackResult env = Some e ->
    Path env req c
      (entered c req dump ++
       [EHijack (Some e);
        log_event (ctx_of c req) LevelError "closing connection"
                  [("error", AError ("hijacking connection: " +++ e))];
        EResponse StatusInternalServerError
                  ("can't properly close connection" +++ LF)])
      true false
| P_slow_not_hijacked dump e :
    dumpResult req = inl dump -> Get (Query req) "action" = "slow-write" ->
    hijackResult env = Some e ->
    Path env req c
      (entered c req dump ++
       [log_event (reqContext req) LevelInfo "hijacking connection" [];
        EHijack (Some e);
        log_event (ctx_of c req) LevelError "writing response"
                  [("error", AError ("hijacking connection: " +++ e))];
        EResponse StatusInternalServerError
                  ("can't properly write response" +++ LF)])
      true false
| P_slow dump :
    dumpResult req = inl dump -> Get (Query req) "action" = "slow-write" ->
    hijackResult env = None ->
    (forall i, (i < List.length (resp req))%nat -> connWriteResult env i = None) ->
    Path env req c
      (entered c req dump ++ hijacking req ++
       paced (resp req) ++ [EClose (closeResult env)])
      true true
| P_slow_last_lost dump init l e :
    dumpResult req = inl dump -> Get (Query req) "action" = "slow-write" ->
    hijackResult env = None ->
    resp req = init ++ [l] ->
    (forall i, (i < List.length init)%nat -> connWriteResult env i = None) ->
    connWriteResult env (List.length init) = Some e ->
    Path env req c
      (entered c req dump ++ hijacking req ++ paced init ++
       [ESleep 100; EWrite l None; EFlush; EConnWrite [l] (Some e);
        EClose (closeResult env)])
      true true
| P_slow_refused dump pre b b' post e :
    dumpResult req = inl dump -> Get (Query req) "action" = "slow-write" ->
    hijackResult env = None ->
    resp req = pre ++ b :: b' :: post ->
    (forall i, (i < List.length pre)%nat -> connWriteResult env i = None) ->
    connWriteResult env (List.length pre) = Some e ->
    Path env req c
      (entered c req dump ++ hijacking req ++ paced pre ++
       [ESleep 100; EWrite b None; EFlush; EConnWrite [b] (Some e);
        ESleep 100; EWrite b' (Some e); EClose (closeResult env);
        log_event (ctx_of c req) LevelError "writing response"
                  [("error", AError ("writing response: " +++ e))];
        EDropped StatusInternalServerError
                 ("can't properly write response" +++ LF)])
      true true
| P_unknown dump :
    dumpResult req = inl dump ->
    Get (Query req) "action" <> "" ->
    Get (Query req) "action" <> "hang" ->
    Get (Query req) "action" <> "close" ->
    Get (Query req) "action" <> "slow-write" ->
    Path env req c
      (entered c req dump ++
       [EResponse StatusBadRequest ("unknown action" +++ LF)])
      true false.

(** Requests served one after the other by one [service]: each starts with
    the counter the one before left. *)
Fixpoint serve_all (jobs : list (Env * Request)) (c : Z) : list (Outcome unit) :=
  match jobs with
  | [] => []
  | (env, req) :: rest =>
      let out := ServeHTTP env req (world0 c) in
      out :: serve_all rest (counter (final out))
  end.

(** Could the request be dumped? *)
Definition readable (req : Request) : bool :=
  match dumpResult req with inl _ => true | inr _ => false end.

(** The actions that take the connection away from the server. *)
Definition hijacks (action : string) : bool :=
  String.eqb action "close" || String.eqb action "slow-write".

(** ** Sample requests and environments *)

(** A request as [curl http://localhost:7080/?action=...] sends it, on the
    first connection of the process. *)
Definition sample_request (action : string) : Request :=
  mkRequest "localhost:7080" [("action", [action])]
            [(connIDCtxKey, AInt64 1)]
            (inl ("GET /?action=" +++ action +++ " HTTP/1.1" +++ CRLF +++
                  "Host: localhost:7080" +++ CRLF +++ CRLF)).

(** A request whose body cannot be read to its end. *)
Definition broken_request (action : string) : Request :=
  mkRequest "localhost:7080" [("action", [action])]
            [(connIDCtxKey, AInt64 1)]
            (inr "unexpected EOF").

(** Everything works and the peer hangs up in the end. *)
Definition calm : Env := mkEnv None (fun _ => None) None true.

(** The peer never hangs up. *)
Definition patient : Env := mkEnv None (fun _ => None) None false.

(** The response writer cannot be hijacked. *)
Definition unhijackable : Env :=
  mkEnv (Some "feature not supported") (fun _ => None) None true.

(** The peer is gone when the [n]-th byte is written to the connection
    (counting from 0). *)
Definition broken_at (n : nat) : Env :=
  mkEnv None (fun i => if Nat.eqb i n then Some "broken pipe" else None) None true.

(** Closing the hijacked connection fails. *)
Definition unclosable : Env :=
  mkEnv None (fun _ => None) (Some "use of closed network connection") true.

(** * Properties *)

(** ** Byte strings *)

Lemma bytes_of_app (a b : string) :
  bytes_of (a +++ b) = bytes_of a ++ bytes_of b.
Proof.
  unfold bytes_of, list_byte_of_string.
  induction a as [|c a IH]; simpl; [reflexivity|].
  f_equal. exact IH.
Qed.

Lemma length_bytes_of (s : string) :
  List.length (bytes_of s) = String.length s.
Proof.
  unfold bytes_of, list_byte_of_string.
  rewrite length_map.
  induction s as [|c s IH]; simpl; congruence.
Qed.

(** ** Counters *)

Module AtomicFacts.
Import Atomic.

Lemma wrap64_small (z : Z) : MinInt64 <= z <= MaxInt64 -> wrap64 z = z.
Proof.
  unfold wrap64, MinInt64, MaxInt64. intros H.
  rewrite Z.mod_small; lia.
Qed.

Lemma wrap64_add_wrap64 (a d : Z) : wrap64 (wrap64 a + d) = wrap64 (a + d).
Proof.
  unfold wrap64.
  replace ((a + 2 ^ 63) mod 2 ^ 64 - 2 ^ 63 + d + 2 ^ 63)
    with ((a + 2 ^ 63) mod 2 ^ 64 + d) by ring.
  replace (a + d + 2 ^ 63) with ((a + 2 ^ 63) + d) by ring.
  rewrite Zplus_mod_idemp_l. reflexivity.
Qed.

Lemma Add_small (v : Z) : 0 <= v < MaxInt64 -> Add v 1 = v + 1.
Proof.
  intros H. unfold Add. apply wrap64_small.
  unfold MinInt64, MaxInt64 in *. lia.
Qed.

End AtomicFacts.

Lemma after_succ (n : N) (a : Assignment) :
  after (N.succ n) a = fst (assign (after n a) a).
Proof. unfold after. rewrite N.iter_succ. reflexivity. Qed.

Lemma after_NewConn (n : N) :
  after n NewConn = mkProcess (Atomic.wrap64 (Z.of_N n)) 0.
Proof.
  induction n as [|n IH] using N.peano_ind.
  - reflexivity.
  - rewrite after_succ, IH. simpl. unfold Atomic.Add.
    rewrite AtomicFacts.wrap64_add_wrap64, N2Z.inj_succ. reflexivity.
Qed.

Lemma after_NewRequest (n : N) :
  after n NewRequest = mkProcess 0 (Atomic.wrap64 (Z.of_N n)).
Proof.
  induction n as [|n IH] using N.peano_ind.
  - reflexivity.
  - rewrite after_succ, IH. simpl. unfold Atomic.Add.
    rewrite AtomicFacts.wrap64_add_wrap64, N2Z.inj_succ. reflexivity.
Qed.

Lemma upfrom_lower (n : nat) : forall c x, In x (upfrom c n) -> c < x.
Proof.
  induction n as [|n IH]; simpl; intros c x H; [contradiction|].
  destruct H as [H|H]; [lia|]. apply IH in H. lia.
Qed.

Lemma upfrom_sorted (n : nat) : forall c, StronglySorted Z.lt (upfrom c n).
Proof.
  induction n as [|n IH]; simpl; intros c; constructor; [apply IH|].
  apply Forall_forall. intros x H. now apply upfrom_lower in H.
Qed.

Lemma upfrom_NoDup (n : nat) : forall c, NoDup (upfrom c n).
Proof.
  induction n as [|n IH]; simpl; intros c; constructor; [|apply IH].
  intros H. apply upfrom_lower in H. lia.
Qed.

Lemma upfrom_length (n : nat) : forall c, List.length (upfrom c n) = n.
Proof. induction n as [|n IH]; simpl; intros c; [|rewrite IH]; reflexivity. Qed.

Lemma assign_same (p : Process) (k : Assignment) :
  0 <= counter_of k p < Atomic.MaxInt64 ->
  snd (assign p k) = counter_of k p + 1 /\
  counter_of k (fst (assign p k)) = counter_of k p + 1.
Proof.
  intros H. destruct k; simpl in *; rewrite AtomicFacts.Add_small by exact H; auto.
Qed.

Lemma assign_other (p : Process) (a k : Assignment) :
  Assignment_eqb a k = false ->
  counter_of k (fst (assign p a)) = counter_of k p.
Proof. destruct a, k; simpl; intros H; try discriminate; reflexivity. Qed.

Lemma Assignment_eqb_sym (a b : Assignment) :
  Assignment_eqb a b = Assignment_eqb b a.
Proof. destruct a, b; reflexivity. Qed.

Lemma ids_assign_all (k : Assignment) (l : list Assignment) :
  forall p,
    0 <= counter_of k p ->
    counter_of k p + Z.of_nat (count k l) <= Atomic.MaxInt64 ->
    ids k (assign_all p l) = upfrom (counter_of k p) (count k l).
Proof.
  unfold ids, count.
  induction l as [|a l IH]; intros p H0 Hmax; [reflexivity|].
  simpl assign_all. destruct (assign p a) as [p' id] eqn:E.
  simpl in Hmax |- *. rewrite (Assignment_eqb_sym k a) in *.
  destruct (Assignment_eqb a k) eqn:Ek.
  - assert (a = k) by (destruct a, k; simpl in Ek; congruence). subst a.
    simpl List.length in Hmax |- *. rewrite Nat2Z.inj_succ in Hmax.
    destruct (assign_same p k) as [Hid Hc]; [lia|].
    rewrite E in Hid, Hc. simpl in Hid, Hc.
    simpl. rewrite Hid. f_equal.
    rewrite IH by lia. rewrite Hc. reflexivity.
  - pose proof (assign_other p a k Ek) as Hc. rewrite E in Hc. simpl in Hc.
    rewrite IH by lia. rewrite Hc. reflexivity.
Qed.

Lemma count_filter (k : Assignment) (l : list Assignment) :
  count k (filter (Assignment_eqb k) l) = count k l.
Proof.
  unfold count. induction l as [|a l IH]; simpl; [reflexivity|].
  destruct (Assignment_eqb k a) eqn:E; simpl; rewrite ?E; simpl; congruence.
Qed.

(** ** Identifier counters *)

(** C8, as the claim words it, fails once a counter has run through the
    positive half of [int64]: connection number 2^63 - 1 gets the largest
    identifier and the next connection a smaller one. *)
Lemma identifiers_wrap_around :
  let p := after (2 ^ 63 - 2) NewConn in
  let id1 := snd (assign p NewConn) in
  let id2 := snd (assign (fst (assign p NewConn)) NewConn) in
  id1 = Atomic.MaxInt64 /\ id2 = Atomic.MinInt64 /\ id2 < id1.
Proof.
  rewrite after_NewConn. vm_compute. repeat split; reflexivity.
Qed.

(** C8 (amended): as long as fewer than 2^63 identifiers of a kind have been
    assigned, the identifiers of that kind come out strictly increasing in
    assignment order (each one above every earlier one), hence without
    duplicates, one per assignment, and they are the same as if the
    assignments of the other kind had never happened. *)
Theorem identifiers_strictly_increase (l : list Assignment) (k : Assignment) :
  Z.of_nat (count k l) <= Atomic.MaxInt64 ->
  StronglySorted Z.lt (ids k (assign_all process0 l)) /\
  NoDup (ids k (assign_all process0 l)) /\
  List.length (ids k (assign_all process0 l)) = count k l /\
  ids k (assign_all process0 l) =
    ids k (assign_all process0 (filter (Assignment_eqb k) l)).
Proof.
  intros Hmax.
  assert (H0 : 0 <= counter_of k process0) by (destruct k; simpl; lia).
  assert (Hz : counter_of k process0 = 0) by (destruct k; reflexivity).
  rewrite (ids_assign_all k l process0) by (rewrite ?Hz; lia).
  rewrite (ids_assign_all k _ process0) by (rewrite ?Hz, ?count_filter; lia).
  rewrite count_filter.
  repeat split.
  - apply upfrom_sorted.
  - apply upfrom_NoDup.
  - apply upfrom_length.
Qed.

Lemma identifiers_strictly_increase_witness :
  Z.of_nat (count NewConn [NewConn; NewRequest; NewConn]) <= Atomic.MaxInt64 /\
  ids NewConn (assign_all process0 [NewConn; NewRequest; NewConn]) = [1; 2] /\
  StronglySorted Z.lt (ids NewConn (assign_all process0 [NewConn; NewRequest; NewConn])).
Proof.
  split; [vm_compute; discriminate|].
  split; [reflexivity|].
  apply (identifiers_strictly_increase [NewConn; NewRequest; NewConn] NewConn).
  vm_compute; discriminate.
Defined.

(** ** The contextual log sink *)

Example Handle_both :
  Handle (fun _ r => r_attrs r)
         [(requestIDKey, AInt64 7); (otherKey 0, AString "srv"); (connIDCtxKey, AInt64 3)]
         (mkRecord LevelInfo "handling" [("action", AString "close")])
  = [("action", AString "close"); ("request_id", AInt64 7); ("conn_id", AInt64 3)].
Proof. reflexivity. Qed.

Example Handle_none :
  Handle (fun _ r => r_attrs r) [(otherKey 0, AString "srv")]
         (mkRecord LevelInfo "Listening HTTP" [("addr", AString "localhost:7080")])
  = [("addr", AString "localhost:7080")].
Proof. reflexivity. Qed.

(** C9: [Handle] forwards the record to the wrapped handler with the same
    context, level, message and attributes, followed by a [request_id]
    attribute exactly when the context carries a request identifier and a
    [conn_id] attribute exactly when it carries a connection identifier,
    each with the value from the context; nothing else is added and a
    missing value is no error. *)
Theorem Handle_attaches_identifiers :
  forall (R : Type) (inner : Handler R) (ctx : Context) (record : Record_),
  exists added : list Attr,
    Handle inner ctx record =
      inner ctx (mkRecord (r_level record) (r_message record)
                          (r_attrs record ++ added)) /\
    (forall v, In ("request_id", v) added <->
               exists z, v = AInt64 z /\ Value ctx requestIDKey = Some (AInt64 z)) /\
    (forall v, In ("conn_id", v) added <->
               exists z, v = AInt64 z /\ Value ctx connIDCtxKey = Some (AInt64 z)) /\
    (forall key v, In (key, v) added -> key = "request_id" \/ key = "conn_id") /\
    NoDup (map fst added).
Proof.
  intros R inner ctx record. unfold Handle, Record_Add.
  destruct (Value ctx requestIDKey) as [[zr| | |]|] eqn:Er;
  destruct (Value ctx connIDCtxKey) as [[zc| | |]|] eqn:Ec; simpl;
  match goal with
  | |- context [(?a ++ [?x]) ++ [?y]] =>
      exists [x; y]; rewrite <- app_assoc; simpl
  | |- context [?a ++ [?x]] => exists [x]
  | |- _ => exists []; rewrite app_nil_r; destruct record; simpl
  end;
  (split; [reflexivity|]);
  repeat split; simpl; intros;
  repeat match goal with
  | H : _ \/ _ |- _ => destruct H
  | H : False |- _ => contradiction
  | H : (_, _) = (_, _) |- _ => inversion H; clear H; subst
  | H : exists _, _ |- _ => destruct H as [? [? ?]]; subst
  | H : Some _ = Some _ |- _ => inversion H; clear H; subst
  end;
  try discriminate; try congruence; eauto;
  try (repeat constructor; simpl; intuition discriminate).
Qed.

(** ** Running the handler *)

Section HandlerFacts.

Variable env : Env.

Lemma Handle_logHandler (ctx : Context) (r : Record_) (w : World) :
  Handle (logHandler) ctx r w =
  Returned tt (emit (Handle (fun _ r => ELog r) ctx r) w).
Proof.
  unfold Handle.
  destruct (assert_int64 (Value ctx requestIDKey));
  destruct (assert_int64 (Value ctx connIDCtxKey)); reflexivity.
Qed.

Lemma slog_InfoContext_run ctx msg attrs w :
  slog_InfoContext ctx msg attrs w =
  Returned tt (emit (log_event ctx LevelInfo msg attrs) w).
Proof. apply Handle_logHandler. Qed.

Lemma slog_ErrorContext_run ctx msg attrs w :
  slog_ErrorContext ctx msg attrs w =
  Returned tt (emit (log_event ctx LevelError msg attrs) w).
Proof. apply Handle_logHandler. Qed.

Lemma log_event_level ctx lvl msg attrs :
  exists r, log_event ctx lvl msg attrs = ELog r /\ r_level r = lvl /\
            r_message r = msg /\ incl attrs (r_attrs r).
Proof.
  unfold log_event, Handle, Record_Add.
  destruct (assert_int64 (Value ctx requestIDKey));
  destruct (assert_int64 (Value ctx connIDCtxKey)); simpl;
  eexists; (split; [reflexivity|]); simpl; repeat split;
  intros x Hx; repeat (apply in_or_app; left); exact Hx.
Qed.

(** One turn of the loop on a writer with nothing buffered and no error:
    the byte is buffered and then written to the connection by the flush,
    whose error, if any, stays in the writer. *)
Lemma slowWrite_loop_turn (b : byte) (rest : list byte) (w : World) (n : nat) :
  writer w = mkWriter [] None n ->
  slowWrite_loop env (b :: rest) w =
  slowWrite_loop env rest
    (mkWorld (EConnWrite [b] (connWriteResult env n) :: EFlush
              :: EWrite b None :: ESleep 100 :: events w)
             (hijacked w)
             (match connWriteResult env n with
              | None => mkWriter [] None (S n)
              | Some e => mkWriter [b] (Some e) (S n)
              end)
             (counter w)).
Proof.
  intros Hw. destruct w as [evs hij wr c]. cbn [writer] in Hw. subst wr.
  cbn [slowWrite_loop].
  unfold bind, time_Sleep, w_Write, w_Flush, bufio_Flush, emit.
  cbn [writer buf err sent events hijacked counter List.length app].
  change (Nat.leb defaultBufSize 0) with false. cbn iota.
  cbn [writer buf err sent events hijacked counter List.length app].
  destruct (connWriteResult env n); reflexivity.
Qed.

(** A turn of the loop on a writer that holds an error: the write is
    refused with that error and the loop ends. *)
Lemma slowWrite_loop_stuck (b : byte) (rest : list byte) (w : World)
    (held : byte) (e : error) (n : nat) :
  writer w = mkWriter [held] (Some e) n ->
  slowWrite_loop env (b :: rest) w =
  Returned (Some ("writing response: " +++ e))
    (mkWorld (EWrite b (Some e) :: ESleep 100 :: events w)
             (hijacked w) (writer w) (counter w)).
Proof.
  intros Hw. destruct w as [evs hij wr c]. cbn [writer] in Hw. subst wr.
  cbn [slowWrite_loop].
  unfold bind, time_Sleep, w_Write, emit, ret.
  cbn [writer buf err sent events hijacked counter List.length].
  change (Nat.leb defaultBufSize 1) with false. cbn iota.
  reflexivity.
Qed.

Lemma pacing_paced (f : nat -> option error) (bs : list byte) : forall n,
  (forall i, (i < List.length bs)%nat -> f (n + i)%nat = None) ->
  pacing f n bs = paced bs.
Proof.
  induction bs as [|b bs IH]; intros n H; [reflexivity|].
  cbn [pacing paced flat_map]. fold (paced bs).
  pose proof (H 0%nat) as H0. rewrite Nat.add_0_r in H0.
  rewrite H0 by (simpl; lia). rewrite IH; [reflexivity|].
  intros i Hi. rewrite Nat.add_succ_comm. apply H. simpl. lia.
Qed.

(** The loop when no write to the connection fails before the last one: it
    runs through all the bytes and returns nil, whatever becomes of the
    last byte. *)
Lemma slowWrite_loop_through (bs : list byte) : forall w n,
  writer w = mkWriter [] None n ->
  (forall i, (S i < List.length bs)%nat -> connWriteResult env (n + i) = None) ->
  exists wr,
    slowWrite_loop env bs w =
    Returned None (mkWorld (rev (pacing (connWriteResult env) n bs) ++ events w)
                           (hijacked w) wr (counter w)).
Proof.
  induction bs as [|b bs IH]; intros w n Hw H.
  - exists (writer w). destruct w; reflexivity.
  - rewrite (slowWrite_loop_turn b bs w n Hw).
    destruct (connWriteResult env n) as [e|] eqn:E.
    + destruct bs as [|b' bs].
      * eexists. cbn [slowWrite_loop pacing rev app]. unfold ret.
        rewrite E. reflexivity.
      * pose proof (H 0%nat) as H0. rewrite Nat.add_0_r in H0.
        rewrite H0 in E by (simpl; lia). discriminate.
    + destruct (IH (mkWorld (EConnWrite [b] None :: EFlush :: EWrite b None
                             :: ESleep 100 :: events w)
                            (hijacked w) (mkWriter [] None (S n)) (counter w))
                   (S n) eq_refl) as [wr Hrun].
      * intros i Hi. rewrite Nat.add_succ_comm. apply H. simpl. lia.
      * exists wr. rewrite Hrun. cbn [events hijacked counter pacing].
        rewrite E. cbn [rev app]. rewrite <- !app_assoc. reflexivity.
Qed.

(** The loop when the write of the byte after [pre] to the connection is
    the first to fail and a byte follows it: the next [w.Write] returns that
    error and the loop ends with it. *)
Lemma slowWrite_loop_refused (pre : list byte) (b b' : byte) (post : list byte)
    (e : error) : forall w n,
  writer w = mkWriter [] None n ->
  (forall i, (i < List.length pre)%nat -> connWriteResult env (n + i) = None) ->
  connWriteResult env (n + List.length pre) = Some e ->
  exists wr,
    slowWrite_loop env (pre ++ b :: b' :: post) w =
    Returned (Some ("writing response: " +++ e))
      (mkWorld (rev (paced pre ++
                     [ESleep 100; EWrite b None; EFlush; EConnWrite [b] (Some e);
                      ESleep 100; EWrite b' (Some e)]) ++ events w)
               (hijacked w) wr (counter w)).
Proof.
  induction pre as [|a pre IH]; intros w n Hw H He.
  - cbn [app List.length] in *. rewrite Nat.add_0_r in He.
    rewrite (slowWrite_loop_turn b (b' :: post) w n Hw), He.
    rewrite slowWrite_loop_stuck with (held := b) (e := e) (n := S n)
      by reflexivity.
    eexists. reflexivity.
  - cbn [app]. rewrite (slowWrite_loop_turn a _ w n Hw).
    pose proof (H 0%nat) as H0. rewrite Nat.add_0_r in H0.
    rewrite H0 by (simpl; lia).
    destruct (IH (mkWorld (EConnWrite [a] None :: EFlush :: EWrite a None
                           :: ESleep 100 :: events w)
                          (hijacked w) (mkWriter [] None (S n)) (counter w))
                 (S n) eq_refl) as [wr Hrun].
    + intros i Hi. rewrite Nat.add_succ_comm. apply H. simpl. lia.
    + rewrite Nat.add_succ_comm. exact He.
    + exists wr. rewrite Hrun. cbn [events hijacked counter paced flat_map].
      fold (paced pre). cbn [rev app]. rewrite <- !app_assoc. reflexivity.
Qed.

(** Either no write to the connection fails before the last byte of [bs],
    or there is a first one that fails and a byte after it. *)
Lemma first_refusal (bs : list byte) : forall n,
  (forall i, (S i < List.length bs)%nat -> connWriteResult env (n + i) = None) \/
  exists pre b b' post e,
    bs = pre ++ b :: b' :: post /\
    (forall i, (i < List.length pre)%nat -> connWriteResult env (n + i) = None) /\
    connWriteResult env (n + List.length pre) = Some e.
Proof.
  induction bs as [|b bs IH]; intros n.
  - left. simpl. intros i Hi. lia.
  - destruct bs as [|b' bs].
    + left. simpl. intros i Hi. lia.
    + destruct (connWriteResult env n) as [e|] eqn:E.
      * right. exists [], b, b', bs, e. cbn [app List.length].
        rewrite Nat.add_0_r. repeat split; auto. intros i Hi. lia.
      * destruct (IH (S n)) as [Hall | (pre & x & x' & post & e & Heq & Hpre & He)].
        -- left. intros [|i] Hi.
           ++ rewrite Nat.add_0_r. exact E.
           ++ rewrite Nat.add_succ_r. apply Hall. simpl in Hi |- *. lia.
        -- right. exists (b :: pre), x, x', post, e.
           cbn [app List.length]. rewrite Heq. repeat split.
           ++ intros [|i] Hi.
              ** rewrite Nat.add_0_r. exact E.
              ** rewrite Nat.add_succ_r. apply Hpre. lia.
           ++ rewrite Nat.add_succ_r. exact He.
Qed.

Ltac run_prims :=
  unfold bind, ret, counter_Add, fmt_Println, http_Error, http_ServeContent,
    ctx_Done, controller_Hijack, conn_Close, emit;
  rewrite ?slog_InfoContext_run, ?slog_ErrorContext_run;
  unfold emit; simpl.

Local Arguments slowWrite : simpl never.
Local Arguments slowWrite_loop : simpl never.
Local Arguments resp : simpl never.
Local Arguments log_event : simpl never.
Arguments resp : simpl never.
Arguments spec_response : simpl never.
Arguments spec_head : simpl never.
Local Arguments writeStrs : simpl never.
Local Arguments Atomic.Add : simpl never.

Lemma slowWrite_hijacked req w :
  hijacked w = false ->
  hijackResult env = None ->
  slowWrite env req w =
  match slowWrite_loop env (resp req)
          (mkWorld (rev (hijacking req) ++ events w) true NewWriter (counter w)) with
  | Returned r w2 =>
      Returned r (mkWorld (EClose (closeResult env) :: events w2)
                          (hijacked w2) (writer w2) (counter w2))
  | Blocked w2 => Blocked w2
  end.
Proof.
  intros Hw Hh. unfold slowWrite. run_prims. rewrite Hw, Hh. simpl.
  reflexivity.
Qed.

Lemma slowWrite_not_hijacked req w e :
  hijacked w = false ->
  hijackResult env = Some e ->
  slowWrite env req w =
  Returned (Some ("hijacking connection: " +++ e))
    (mkWorld (EHijack (Some e)
              :: log_event (reqContext req) LevelInfo "hijacking connection" []
              :: events w) false (writer w) (counter w)).
Proof.
  intros Hw Hh. unfold slowWrite. run_prims. rewrite Hw, Hh. simpl.
  rewrite ?Hw. reflexivity.
Qed.

Section Readable.

Variables (c : Z) (req : Request) (dump : string).
Hypothesis Hd : dumpResult req = inl dump.

Lemma ServeHTTP_close_hijacked :
  Get (Query req) "action" = "close" ->
  hijackResult env = None ->
  ServeHTTP env req (world0 c) =
  Returned tt (mkWorld (rev (entered c req dump ++
                             [EHijack None; EClose (closeResult env)]))
                       true NewWriter (Atomic.Add c 1)).
Proof.
  intros Ha Hh. unfold ServeHTTP, closeConn. rewrite Hd.
  run_prims. rewrite Ha. simpl. rewrite Hh. reflexivity.
Qed.

Lemma ServeHTTP_close_not_hijacked e :
  Get (Query req) "action" = "close" ->
  hijackResult env = Some e ->
  ServeHTTP env req (world0 c) =
  Returned tt
    (mkWorld (rev (entered c req dump ++
                   [EHijack (Some e);
                    log_event (ctx_of c req) LevelError "closing connection"
                              [("error", AError ("hijacking connection: " +++ e))];
                    EResponse StatusInternalServerError
                              ("can't properly close connection" +++ LF)]))
             false NewWriter (Atomic.Add c 1)).
Proof.
  intros Ha Hh. unfold ServeHTTP, closeConn. rewrite Hd.
  run_prims. rewrite Ha. simpl. rewrite Hh. reflexivity.
Qed.

Lemma ServeHTTP_hang_cancelled :
  Get (Query req) "action" = "hang" ->
  cancelled env = true ->
  ServeHTTP env req (world0 c) =
  Returned tt (mkWorld (rev (entered c req dump ++ [EDone]))
                       false NewWriter (Atomic.Add c 1)).
Proof.
  intros Ha Hc. unfold ServeHTTP. rewrite Hd.
  run_prims. rewrite Ha. simpl. rewrite Hc. reflexivity.
Qed.

Lemma ServeHTTP_hang_never_cancelled :
  Get (Query req) "action" = "hang" ->
  cancelled env = false ->
  ServeHTTP env req (world0 c) =
  Blocked (mkWorld (rev (entered c req dump)) false NewWriter (Atomic.Add c 1)).
Proof.
  intros Ha Hc. unfold ServeHTTP. rewrite Hd.
  run_prims. rewrite Ha. simpl. rewrite Hc. reflexivity.
Qed.

Lemma ServeHTTP_unknown :
  Get (Query req) "action" <> "" ->
  Get (Query req) "action" <> "hang" ->
  Get (Query req) "action" <> "close" ->
  Get (Query req) "action" <> "slow-write" ->
  ServeHTTP env req (world0 c) =
  Returned tt
    (mkWorld (rev (entered c req dump ++
                   [EResponse StatusBadRequest ("unknown action" +++ LF)]))
             false NewWriter (Atomic.Add c 1)).
Proof.
  intros H1 H2 H3 H4. unfold ServeHTTP. rewrite Hd.
  apply String.eqb_neq in H1, H2, H3, H4.
  rewrite H1, H2, H3, H4. run_prims. reflexivity.
Qed.

Lemma ServeHTTP_slow_not_hijacked e :
  Get (Query req) "action" = "slow-write" ->
  hijackResult env = Some e ->
  ServeHTTP env req (world0 c) =
  Returned tt
    (mkWorld (rev (entered c req dump ++
                   [log_event (reqContext req) LevelInfo "hijacking connection" [];
                    EHijack (Some e);
                    log_event (ctx_of c req) LevelError "writing response"
                              [("error", AError ("hijacking connection: " +++ e))];
                    EResponse StatusInternalServerError
                              ("can't properly write response" +++ LF)]))
             false NewWriter (Atomic.Add c 1)).
Proof.
  intros Ha Hh. unfold ServeHTTP, entered. rewrite Hd, Ha.
  run_prims. rewrite (slowWrite_not_hijacked _ _ e) by auto.
  run_prims. reflexivity.
Qed.

Lemma ServeHTTP_slow_through :
  Get (Query req) "action" = "slow-write" ->
  hijackResult env = None ->
  (forall i, (S i < List.length (resp req))%nat -> connWriteResult env i = None) ->
  exists wr,
    ServeHTTP env req (world0 c) =
    Returned tt
      (mkWorld (rev (entered c req dump ++ hijacking req ++
                     pacing (connWriteResult env) 0 (resp req) ++
                     [EClose (closeResult env)]))
               true wr (Atomic.Add c 1)).
Proof.
  intros Ha Hh Hw. unfold ServeHTTP, entered. rewrite Hd, Ha.
  match goal with
  | |- exists wr, _ = Returned tt (mkWorld ?t _ _ _) => set (tr := t)
  end.
  run_prims. rewrite slowWrite_hijacked by auto.
  match goal with
  | |- context [slowWrite_loop env (resp req) ?w0] =>
      destruct (slowWrite_loop_through (resp req) w0 0 eq_refl Hw) as [wr ->]
  end.
  exists wr. cbn [events hijacked writer counter]. subst tr. f_equal. f_equal.
  rewrite !rev_app_distr. cbn [rev app]. rewrite <- !app_assoc. reflexivity.
Qed.

Lemma ServeHTTP_slow_refused pre b b' post e :
  Get (Query req) "action" = "slow-write" ->
  hijackResult env = None ->
  resp req = pre ++ b :: b' :: post ->
  (forall i, (i < List.length pre)%nat -> connWriteResult env i = None) ->
  connWriteResult env (List.length pre) = Some e ->
  exists wr,
    ServeHTTP env req (world0 c) =
    Returned tt
      (mkWorld (rev (entered c req dump ++ hijacking req ++ paced pre ++
                     [ESleep 100; EWrite b None; EFlush; EConnWrite [b] (Some e);
                      ESleep 100; EWrite b' (Some e); EClose (closeResult env);
                      log_event (ctx_of c req) LevelError "writing response"
                                [("error", AError ("writing response: " +++ e))];
                      EDropped StatusInternalServerError
                               ("can't properly write response" +++ LF)]))
               true wr (Atomic.Add c 1)).
Proof.
  intros Ha Hh Hr Hpre He. unfold ServeHTTP, entered. rewrite Hd, Ha.
  match goal with
  | |- exists wr, _ = Returned tt (mkWorld ?t _ _ _) => set (tr := t)
  end.
  run_prims. rewrite slowWrite_hijacked by auto. rewrite Hr.
  match goal with
  | |- context [slowWrite_loop env _ ?w0] =>
      destruct (slowWrite_loop_refused pre b b' post e w0 0 eq_refl Hpre He)
        as [wr ->]
  end.
  exists wr. run_prims. subst tr. f_equal. f_equal.
  rewrite !rev_app_distr. cbn [rev app]. rewrite <- !app_assoc. reflexivity.
Qed.

End Readable.

Lemma ServeHTTP_unreadable c req e :
  dumpResult req = inr e ->
  ServeHTTP env req (world0 c) =
  Returned tt
    (mkWorld (rev [log_event (ctx_of c req) LevelError "dumping request"
                             [("!BADKEY", AError e)];
                   EResponse StatusBadRequest (("bad request: " +++ e) +++ LF)])
             false NewWriter (Atomic.Add c 1)).
Proof.
  intros Hd. unfold ServeHTTP. rewrite Hd. run_prims. reflexivity.
Qed.

End HandlerFacts.

(** ** Observing traces *)

Section Observing.

Variables (ctx : Context) (lvl : Level) (msg : string) (attrs : list Attr).

Lemma written_by_log : written_by (log_event ctx lvl msg attrs) = [].
Proof. destruct (log_event_level ctx lvl msg attrs) as (r & -> & _). reflexivity. Qed.

Lemma response_of_log : response_of (log_event ctx lvl msg attrs) = [].
Proof. destruct (log_event_level ctx lvl msg attrs) as (r & -> & _). reflexivity. Qed.

Lemma is_conn_op_log : is_conn_op (log_event ctx lvl msg attrs) = false.
Proof. destruct (log_event_level ctx lvl msg attrs) as (r & -> & _). reflexivity. Qed.

Lemma on_the_wire_log : on_the_wire (log_event ctx lvl msg attrs) = false.
Proof. destruct (log_event_level ctx lvl msg attrs) as (r & -> & _). reflexivity. Qed.

Lemma sends_bytes_log : sends_bytes (log_event ctx lvl msg attrs) = false.
Proof. destruct (log_event_level ctx lvl msg attrs) as (r & -> & _). reflexivity. Qed.

Lemma is_action_log : is_action (log_event ctx lvl msg attrs) = false.
Proof. destruct (log_event_level ctx lvl msg attrs) as (r & -> & _). reflexivity. Qed.

Lemma is_error_log_log :
  is_error_log (log_event ctx lvl msg attrs) =
  match lvl with LevelError => true | _ => false end.
Proof.
  destruct (log_event_level ctx lvl msg attrs) as (r & -> & <- & _). reflexivity.
Qed.

Lemma arrivals_log now tr :
  arrivals now (log_event ctx lvl msg attrs :: tr) = arrivals now tr.
Proof. destruct (log_event_level ctx lvl msg attrs) as (r & -> & _). reflexivity. Qed.

Lemma slept_log tr : slept (log_event ctx lvl msg attrs :: tr) = slept tr.
Proof. destruct (log_event_level ctx lvl msg attrs) as (r & -> & _). reflexivity. Qed.

End Observing.

Lemma conn_written_paced (bs : list byte) : conn_written (paced bs) = bs.
Proof. induction bs as [|b bs IH]; simpl; [|f_equal]; auto. Qed.

Lemma responses_paced (bs : list byte) : responses (paced bs) = [].
Proof. induction bs as [|b bs IH]; simpl; auto. Qed.

Lemma on_the_wire_paced (bs : list byte) : filter on_the_wire (paced bs) = paced bs.
Proof. induction bs as [|b bs IH]; simpl; [|do 4 f_equal]; auto. Qed.

Lemma is_error_log_paced (bs : list byte) : filter is_error_log (paced bs) = [].
Proof. induction bs as [|b bs IH]; simpl; auto. Qed.

Lemma slept_app (a b : list Event) : slept (a ++ b) = slept a + slept b.
Proof.
  induction a as [|e a IH]; simpl; [reflexivity|].
  destruct e; rewrite ?IH; lia.
Qed.

Lemma arrivals_app (a b : list Event) : forall now,
  arrivals now (a ++ b) = arrivals now a ++ arrivals (now + slept a) b.
Proof.
  induction a as [|e a IH]; intros now; simpl.
  - rewrite Z.add_0_r. reflexivity.
  - destruct e as [| | | | | |? [?|]| | | | |]; simpl; rewrite IH;
      rewrite ?Z.add_assoc, <- ?app_assoc; reflexivity.
Qed.

Lemma arrivals_paced (bs : list byte) : forall now,
  arrivals now (paced bs) = stamps now bs.
Proof.
  induction bs as [|b bs IH]; intros now; simpl; [reflexivity|].
  f_equal. apply IH.
Qed.

Lemma stamps_fst (bs : list byte) : forall now i,
  (i < List.length bs)%nat ->
  nth_error (map fst (stamps now bs)) i = Some (now + 100 * (Z.of_nat i + 1)).
Proof.
  induction bs as [|b bs IH]; intros now i Hi; simpl in Hi; [lia|].
  destruct i as [|i]; simpl.
  - f_equal; lia.
  - rewrite IH by lia. f_equal; lia.
Qed.

Lemma stamps_snd (bs : list byte) : forall now, map snd (stamps now bs) = bs.
Proof. induction bs as [|b bs IH]; intros now; simpl; [|f_equal]; auto. Qed.

(** The buffer of [slowWrite] holds the response the specification words. *)
Lemma resp_spec_response (req : Request) : resp req = spec_response (Host req).
Proof.
  unfold resp, spec_response, writeStrs, WriteString, Buffer_StringWriter, len.
  cbn [fold_left]. rewrite <- length_bytes_of.
  rewrite !bytes_of_app, <- !app_assoc. reflexivity.
Qed.

Lemma spec_response_head (host : string) :
  spec_response host = spec_head host ++ bytes_of limeric.
Proof. unfold spec_response, spec_head. rewrite <- !app_assoc. reflexivity. Qed.

Example limeric_length : List.length (bytes_of limeric) = 152%nat.
Proof. reflexivity. Qed.

Example content_length_header :
  "Content-Length: " +++ Itoa (len limeric) +++ CRLF
  = "Content-Length: 152" +++ CRLF.
Proof. reflexivity. Qed.

Lemma conn_written_app (a b : list Event) :
  conn_written (a ++ b) = conn_written a ++ conn_written b.
Proof. apply flat_map_app. Qed.

Lemma responses_app (a b : list Event) :
  responses (a ++ b) = responses a ++ responses b.
Proof. apply flat_map_app. Qed.

Lemma conn_written_cons (e : Event) (tr : list Event) :
  conn_written (e :: tr) = written_by e ++ conn_written tr.
Proof. reflexivity. Qed.

Lemma responses_cons (e : Event) (tr : list Event) :
  responses (e :: tr) = response_of e ++ responses tr.
Proof. reflexivity. Qed.

Lemma conn_written_nil : conn_written [] = [].
Proof. reflexivity. Qed.

Lemma responses_nil : responses [] = [].
Proof. reflexivity. Qed.

Lemma filter_cons {A} (f : A -> bool) (x : A) (l : list A) :
  filter f (x :: l) = (if f x then [x] else []) ++ filter f l.
Proof. simpl. destruct (f x); reflexivity. Qed.

Lemma trace_mkWorld (evs : list Event) h n c :
  trace (mkWorld (rev evs) h n c) = evs.
Proof. apply rev_involutive. Qed.

Create Rewrite HintDb observe.
#[global] Hint Rewrite trace_mkWorld
  conn_written_app responses_app @filter_app
  conn_written_cons responses_cons @filter_cons
  conn_written_nil responses_nil
  written_by_log response_of_log is_conn_op_log on_the_wire_log
  sends_bytes_log is_action_log is_error_log_log
  conn_written_paced responses_paced on_the_wire_paced is_error_log_paced
  : observe.

Arguments log_event : simpl never.
Arguments resp : simpl never.
Arguments spec_response : simpl never.
Arguments spec_head : simpl never.

Ltac observe :=
  unfold final, returns, conn_ops, entered, hijacking;
  autorewrite with observe;
  cbn [app filter written_by response_of is_conn_op on_the_wire sends_bytes
       is_action is_error_log r_level hijacked].

(** * The action engine *)

(** ** [close] *)

Example close_run :
  trace (final (ServeHTTP (mkEnv None (fun _ => None) None true)
                          (mkRequest "localhost:7080" [("action", ["close"])] []
                                     (inl "GET /?action=close HTTP/1.1"))
                          (world0 0)))
  = [ EPrintln ("---" +++ LF +++ "GET /?action=close HTTP/1.1" +++ LF +++ "---" +++ LF);
      ELog (mkRecord LevelInfo "handling"
                     [("action", AString "close"); ("request_id", AInt64 1)]);
      EHijack None; EClose None ].
Proof. reflexivity. Qed.

(** C3: a readable request with [action=close]. When the hijack succeeds the
    handler returns having done nothing to the connection but hijack and
    close it: no byte is written to it and no response is sent through the
    response writer. When the hijack fails with [e], the connection is left
    alone, the cause is logged at level [Error] and the client is answered
    500 Internal Server Error. *)
Theorem close_closes_without_a_byte
    (env : Env) (req : Request) (dump : string) (c : Z) :
  dumpResult req = inl dump ->
  Get (Query req) "action" = "close" ->
  let out := ServeHTTP env req (world0 c) in
  returns out = true /\
  (hijackResult env = None ->
     filter is_action (trace (final out)) = [EHijack None; EClose (closeResult env)] /\
     conn_written (trace (final out)) = [] /\
     responses (trace (final out)) = [] /\
     filter sends_bytes (trace (final out)) = []) /\
  (forall e, hijackResult env = Some e ->
     conn_ops (trace (final out)) = [EHijack (Some e)] /\
     responses (trace (final out)) =
       [(StatusInternalServerError, "can't properly close connection" +++ LF)] /\
     filter is_error_log (trace (final out)) =
       [log_event (ctx_of c req) LevelError "closing connection"
                  [("error", AError ("hijacking connection: " +++ e))]]).
Proof.
  intros Hd Ha out. subst out.
  destruct (hijackResult env) as [e|] eqn:Hh.
  - rewrite (ServeHTTP_close_not_hijacked env c req dump Hd e Ha Hh).
    split; [reflexivity|]. split; [discriminate|].
    intros e' He'. inversion He'; subst e'. observe. auto.
  - rewrite (ServeHTTP_close_hijacked env c req dump Hd Ha Hh).
    split; [reflexivity|]. split; [|discriminate].
    intros _. observe. auto.
Qed.

Lemma close_closes_without_a_byte_witness :
  dumpResult (sample_request "close") <> inr "" /\
  Get (Query (sample_request "close")) "action" = "close" /\
  conn_written (trace (final (ServeHTTP calm (sample_request "close") (world0 0)))) = [].
Proof.
  split; [discriminate|]. split; [reflexivity|].
  apply (close_closes_without_a_byte calm (sample_request "close") _ 0
           eq_refl eq_refl).
  reflexivity.
Defined.

(** ** [hang] *)

Example hang_run :
  ServeHTTP patient (sample_request "hang") (world0 41)
  = Blocked (mkWorld
      [ ELog (mkRecord LevelInfo "handling"
                [("action", AString "hang"); ("request_id", AInt64 42);
                 ("conn_id", AInt64 1)]);
        EPrintln ("---" +++ LF +++ "GET /?action=hang HTTP/1.1" +++ CRLF +++
                  "Host: localhost:7080" +++ CRLF +++ CRLF +++ LF +++ "---" +++ LF) ]
      false NewWriter 42).
Proof. reflexivity. Qed.

(** C4: a readable request with [action=hang]. The handler sends no byte to
    the client and does nothing to the connection; it returns exactly when
    the context is cancelled, and its only action is then to take the
    cancellation; while the context is not cancelled it stays suspended. *)
Theorem hang_waits_for_cancellation
    (env : Env) (req : Request) (dump : string) (c : Z) :
  dumpResult req = inl dump ->
  Get (Query req) "action" = "hang" ->
  let out := ServeHTTP env req (world0 c) in
  filter sends_bytes (trace (final out)) = [] /\
  conn_written (trace (final out)) = [] /\
  responses (trace (final out)) = [] /\
  conn_ops (trace (final out)) = [] /\
  returns out = cancelled env /\
  (cancelled env = false -> filter is_action (trace (final out)) = []) /\
  (cancelled env = true -> filter is_action (trace (final out)) = [EDone]).
Proof.
  intros Hd Ha out. subst out.
  destruct (cancelled env) eqn:Hc.
  - rewrite (ServeHTTP_hang_cancelled env c req dump Hd Ha Hc).
    observe. repeat split; auto. discriminate.
  - rewrite (ServeHTTP_hang_never_cancelled env c req dump Hd Ha Hc).
    observe. repeat split; auto. discriminate.
Qed.

Lemma hang_waits_for_cancellation_witness :
  Get (Query (sample_request "hang")) "action" = "hang" /\
  returns (ServeHTTP patient (sample_request "hang") (world0 0)) = false /\
  returns (ServeHTTP calm (sample_request "hang") (world0 0)) = true.
Proof.
  split; [reflexivity|]. split.
  - apply (hang_waits_for_cancellation patient (sample_request "hang") _ 0
             eq_refl eq_refl).
  - apply (hang_waits_for_cancellation calm (sample_request "hang") _ 0
             eq_refl eq_refl).
Defined.

(** ** Unreadable requests *)

Example unreadable_run :
  trace (final (ServeHTTP calm (broken_request "close") (world0 0)))
  = [ ELog (mkRecord LevelError "dumping request"
              [("!BADKEY", AError "unexpected EOF"); ("request_id", AInt64 1);
               ("conn_id", AInt64 1)]);
      EResponse 400 ("bad request: unexpected EOF" +++ LF) ].
Proof. reflexivity. Qed.

(** C6: a request that cannot be read is answered 400 Bad Request and the
    handler returns without any action: nothing is hijacked, served, written
    or waited for, and what happens does not depend on the query, so the
    [action] parameter has no influence. *)
Theorem unreadable_request_rejected
    (env : Env) (req : Request) (e : error) (c : Z) :
  dumpResult req = inr e ->
  let out := ServeHTTP env req (world0 c) in
  returns out = true /\
  responses (trace (final out)) = [(StatusBadRequest, ("bad request: " +++ e) +++ LF)] /\
  filter is_action (trace (final out)) = [] /\
  conn_ops (trace (final out)) = [] /\
  hijacked (final out) = false /\
  forall query : Values,
    ServeHTTP env (mkRequest (Host req) query (reqContext req) (dumpResult req))
              (world0 c) = out.
Proof.
  intros Hd out. subst out.
  rewrite (ServeHTTP_unreadable env c req e Hd).
  observe. repeat split; auto.
  intros query.
  rewrite (ServeHTTP_unreadable env c (mkRequest _ query _ _) e) by exact Hd.
  reflexivity.
Qed.

Lemma unreadable_request_rejected_witness :
  dumpResult (broken_request "close") = inr "unexpected EOF" /\
  responses (trace (final (ServeHTTP calm (broken_request "close") (world0 0))))
  = [(400, "bad request: unexpected EOF" +++ LF)].
Proof.
  split; [reflexivity|].
  apply (unreadable_request_rejected calm (broken_request "close") _ 0 eq_refl).
Defined.

(** ** Unknown actions *)

(** C7: a readable request whose [action] is neither empty nor one of
    [hang], [close] and [slow-write] is answered 400 Bad Request with the
    plain text [unknown action]; the handler returns and has not touched the
    connection: no hijack, no close, no write. *)
Theorem unknown_action_rejected
    (env : Env) (req : Request) (dump : string) (c : Z) :
  dumpResult req = inl dump ->
  Get (Query req) "action" <> "" ->
  Get (Query req) "action" <> "hang" ->
  Get (Query req) "action" <> "close" ->
  Get (Query req) "action" <> "slow-write" ->
  let out := ServeHTTP env req (world0 c) in
  returns out = true /\
  responses (trace (final out)) = [(StatusBadRequest, "unknown action" +++ LF)] /\
  conn_ops (trace (final out)) = [] /\
  filter is_action (trace (final out)) = [] /\
  hijacked (final out) = false.
Proof.
  intros Hd H1 H2 H3 H4 out. subst out.
  rewrite (ServeHTTP_unknown env c req dump Hd H1 H2 H3 H4).
  observe. repeat split; auto.
Qed.

Lemma unknown_action_rejected_witness :
  Get (Query (sample_request "bogus")) "action" = "bogus" /\
  responses (trace (final (ServeHTTP calm (sample_request "bogus") (world0 0))))
  = [(400, "unknown action" +++ LF)].
Proof.
  split; [reflexivity|].
  apply (unknown_action_rejected calm (sample_request "bogus") _ 0 eq_refl);
    discriminate.
Defined.

(** ** The result of [closeConn] *)

Lemma closeConn_run (env : Env) (w : World) :
  exists h w1 w',
    controller_Hijack env w = Returned h w1 /\
    closeConn env w =
      Returned (option_map (fun e => "hijacking connection: " +++ e) h) w' /\
    (h = None -> events w' = EClose (closeResult env) :: EHijack None :: events w).
Proof.
  unfold closeConn, bind, controller_Hijack, conn_Close, ret, emit.
  destruct (if hijacked w then Some "http: connection has been hijacked"
            else hijackResult env) as [e|] eqn:E.
  - do 3 eexists. split; [reflexivity|]. split; [reflexivity|]. discriminate.
  - do 3 eexists. split; [reflexivity|]. split; [reflexivity|]. reflexivity.
Qed.

Example close_failure_run :
  trace (final (ServeHTTP unclosable (sample_request "close") (world0 0)))
  = [ EPrintln ("---" +++ LF +++ "GET /?action=close HTTP/1.1" +++ CRLF +++
                "Host: localhost:7080" +++ CRLF +++ CRLF +++ LF +++ "---" +++ LF);
      ELog (mkRecord LevelInfo "handling"
              [("action", AString "close"); ("request_id", AInt64 1);
               ("conn_id", AInt64 1)]);
      EHijack None; EClose (Some "use of closed network connection") ].
Proof. reflexivity. Qed.

(** C10: [closeConn] returns an error exactly when its call of [Hijack]
    does. The result of [Close] on the hijacked connection is dropped: when
    the hijack succeeds and the close fails, [closeConn] still returns nil,
    and the request with [action=close] then ends with no response sent (no
    500) and no record logged at level [Error]. *)
Theorem closeConn_error_iff_hijack_error
    (env : Env) (req : Request) (dump : string) (c : Z) :
  dumpResult req = inl dump ->
  Get (Query req) "action" = "close" ->
  (forall w, exists r h w' w1,
     closeConn env w = Returned r w' /\
     controller_Hijack env w = Returned h w1 /\
     (r <> None <-> h <> None)) /\
  (forall ce w, hijacked w = false -> hijackResult env = None ->
     closeResult env = Some ce ->
     exists w', closeConn env w = Returned None w' /\
                events w' = EClose (Some ce) :: EHijack None :: events w) /\
  (forall ce, hijackResult env = None -> closeResult env = Some ce ->
     let out := ServeHTTP env req (world0 c) in
     returns out = true /\
     conn_ops (trace (final out)) = [EHijack None; EClose (Some ce)] /\
     responses (trace (final out)) = [] /\
     filter is_error_log (trace (final out)) = []).
Proof.
  intros Hd Ha. split; [|split].
  - intros w. destruct (closeConn_run env w) as (h & w1 & w' & Hh & Hc & _).
    exists (option_map (fun e => "hijacking connection: " +++ e) h), h, w', w1.
    split; [exact Hc|]. split; [exact Hh|].
    destruct h; simpl; split; intros H; (discriminate || exact H).
  - intros ce w Hw Hh Hce.
    destruct (closeConn_run env w) as (h & w1 & w' & Hj & Hc & Hev).
    unfold controller_Hijack in Hj. rewrite Hw, Hh in Hj.
    inversion Hj; subst h. exists w'. split; [exact Hc|].
    rewrite Hev by reflexivity. rewrite Hce. reflexivity.
  - intros ce Hh Hce out. subst out.
    rewrite (ServeHTTP_close_hijacked env c req dump Hd Ha Hh).
    observe. rewrite Hce. auto.
Qed.

Lemma closeConn_error_iff_hijack_error_witness :
  Get (Query (sample_request "close")) "action" = "close" /\
  closeResult unclosable = Some "use of closed network connection" /\
  responses (trace (final (ServeHTTP unclosable (sample_request "close") (world0 0)))) = [].
Proof.
  split; [reflexivity|]. split; [reflexivity|].
  apply (closeConn_error_iff_hijack_error unclosable (sample_request "close") _ 0
           eq_refl eq_refl) with (ce := "use of closed network connection");
    reflexivity.
Defined.

(** ** [slow-write] *)

Lemma firstn_length_app {A} (pre post : list A) :
  firstn (List.length pre) (pre ++ post) = pre.
Proof. induction pre as [|a pre IH]; simpl; [destruct post|f_equal]; auto. Qed.

Lemma arrivals_entered c req dump now :
  arrivals now (entered c req dump) = [] /\ slept (entered c req dump) = 0.
Proof.
  unfold entered.
  destruct (log_event_level (ctx_of c req) LevelInfo "handling"
              [("action", AString (Get (Query req) "action"))]) as (r & -> & _).
  auto.
Qed.

Lemma arrivals_hijacking req now :
  arrivals now (hijacking req) = [] /\ slept (hijacking req) = 0.
Proof.
  unfold hijacking.
  destruct (log_event_level (reqContext req) LevelInfo "hijacking connection" [])
    as (r1 & -> & _).
  destruct (log_event_level (reqContext req) LevelInfo "writing slow response" [])
    as (r2 & -> & _).
  auto.
Qed.

Lemma pacing_app (f : nat -> option error) (a b : list byte) : forall n,
  pacing f n (a ++ b) = pacing f n a ++ pacing f (n + List.length a) b.
Proof.
  induction a as [|x a IH]; intros n.
  - cbn [app pacing List.length]. rewrite Nat.add_0_r. reflexivity.
  - cbn [app pacing List.length]. rewrite IH, Nat.add_succ_comm.
    reflexivity.
Qed.

Lemma ServeHTTP_slow_all (env : Env) (c : Z) (req : Request) (dump : string) :
  dumpResult req = inl dump ->
  Get (Query req) "action" = "slow-write" ->
  hijackResult env = None ->
  (forall i, (i < List.length (resp req))%nat -> connWriteResult env i = None) ->
  exists wr,
    ServeHTTP env req (world0 c) =
    Returned tt
      (mkWorld (rev (entered c req dump ++ hijacking req ++
                     paced (resp req) ++ [EClose (closeResult env)]))
               true wr (Atomic.Add c 1)).
Proof.
  intros Hd Ha Hh Hall.
  destruct (ServeHTTP_slow_through env c req dump Hd Ha Hh) as [wr Hrun].
  { intros i Hi. apply Hall. lia. }
  exists wr. rewrite Hrun.
  rewrite (pacing_paced _ (resp req) 0) by exact Hall. reflexivity.
Qed.

Lemma ServeHTTP_slow_last_lost (env : Env) (c : Z) (req : Request) (dump : string)
    (init : list byte) (l : byte) (e : error) :
  dumpResult req = inl dump ->
  Get (Query req) "action" = "slow-write" ->
  hijackResult env = None ->
  resp req = init ++ [l] ->
  (forall i, (i < List.length init)%nat -> connWriteResult env i = None) ->
  connWriteResult env (List.length init) = Some e ->
  exists wr,
    ServeHTTP env req (world0 c) =
    Returned tt
      (mkWorld (rev (entered c req dump ++ hijacking req ++ paced init ++
                     [ESleep 100; EWrite l None; EFlush; EConnWrite [l] (Some e);
                      EClose (closeResult env)]))
               true wr (Atomic.Add c 1)).
Proof.
  intros Hd Ha Hh Hr Hinit He.
  destruct (ServeHTTP_slow_through env c req dump Hd Ha Hh) as [wr Hrun].
  { intros i Hi. apply Hinit. rewrite Hr, length_app in Hi. simpl in Hi. lia. }
  exists wr. rewrite Hrun, Hr.
  rewrite pacing_app. rewrite (pacing_paced _ init 0) by exact Hinit.
  cbn [pacing Nat.add]. rewrite He.
  rewrite <- !app_assoc. reflexivity.
Qed.

(** The trace of a [slow-write] request whose hijack succeeds, whatever the
    connection does: every byte is written to it; or only the write of the
    last byte fails, which nobody notices; or the write of the byte after
    [pre] is the first to fail and the [w.Write] of the next byte reports
    it. *)
Lemma ServeHTTP_slow_cases (env : Env) (req : Request) (dump : string) (c : Z) :
  dumpResult req = inl dump ->
  Get (Query req) "action" = "slow-write" ->
  hijackResult env = None ->
  ((forall i, (i < List.length (resp req))%nat -> connWriteResult env i = None) /\
   exists wr,
     ServeHTTP env req (world0 c) =
     Returned tt
       (mkWorld (rev (entered c req dump ++ hijacking req ++
                      paced (resp req) ++ [EClose (closeResult env)]))
                true wr (Atomic.Add c 1)))
  \/
  (exists init l e,
     resp req = init ++ [l] /\
     (forall i, (i < List.length init)%nat -> connWriteResult env i = None) /\
     connWriteResult env (List.length init) = Some e /\
     exists wr,
       ServeHTTP env req (world0 c) =
       Returned tt
         (mkWorld (rev (entered c req dump ++ hijacking req ++ paced init ++
                        [ESleep 100; EWrite l None; EFlush; EConnWrite [l] (Some e);
                         EClose (closeResult env)]))
                  true wr (Atomic.Add c 1)))
  \/
  (exists pre b b' post e,
     resp req = pre ++ b :: b' :: post /\
     (forall i, (i < List.length pre)%nat -> connWriteResult env i = None) /\
     connWriteResult env (List.length pre) = Some e /\
     exists wr,
       ServeHTTP env req (world0 c) =
       Returned tt
         (mkWorld (rev (entered c req dump ++ hijacking req ++ paced pre ++
                        [ESleep 100; EWrite b None; EFlush; EConnWrite [b] (Some e);
                         ESleep 100; EWrite b' (Some e); EClose (closeResult env);
                         log_event (ctx_of c req) LevelError "writing response"
                                   [("error", AError ("writing response: " +++ e))];
                         EDropped StatusInternalServerError
                                  ("can't properly write response" +++ LF)]))
                  true wr (Atomic.Add c 1))).
Proof.
  intros Hd Ha Hh.
  pose proof (first_refusal env (resp req) 0) as H. cbn [Nat.add] in H.
  destruct H as [Hthrough | (pre & b & b' & post & e & Hr & Hpre & He)].
  - destruct (ServeHTTP_slow_through env c req dump Hd Ha Hh Hthrough) as [wr Hrun].
    assert (Hcase : (exists init l, resp req = init ++ [l]) \/ resp req = []).
    { destruct (resp req) as [|x xs]; [now right|left].
      destruct (@exists_last _ (x :: xs)) as (init & l & Hr); [discriminate|].
      now exists init, l. }
    destruct Hcase as [(init & l & Hr) | Hnil].
    + destruct (connWriteResult env (List.length init)) as [e|] eqn:E.
      * right. left. exists init, l, e.
        assert (Hinit : forall i, (i < List.length init)%nat ->
                                  connWriteResult env i = None).
        { intros i Hi. apply Hthrough. rewrite Hr, length_app. simpl. lia. }
        repeat split; auto. exists wr. rewrite Hrun, Hr.
        rewrite pacing_app. rewrite (pacing_paced _ init 0) by exact Hinit.
        cbn [pacing Nat.add]. rewrite E.
        rewrite <- !app_assoc. reflexivity.
      * left.
        assert (Hall : forall i, (i < List.length (resp req))%nat ->
                                 connWriteResult env i = None).
        { intros i Hi. rewrite Hr, length_app in Hi. cbn [List.length] in Hi.
          destruct (Nat.eq_dec i (List.length init)) as [->|Hne]; [exact E|].
          apply Hthrough. rewrite Hr, length_app. simpl. lia. }
        split; [exact Hall|]. exists wr. rewrite Hrun.
        rewrite (pacing_paced _ (resp req) 0) by exact Hall. reflexivity.
    + left. split.
      * intros i Hi. rewrite Hnil in Hi. simpl in Hi. lia.
      * exists wr. rewrite Hrun, Hnil. reflexivity.
  - right. right. exists pre, b, b', post, e. repeat split; auto.
    now apply (ServeHTTP_slow_refused env c req dump Hd pre b b' post e).
Qed.

Example slow_write_cut_run :
  let tr := trace (final (ServeHTTP (broken_at 5) (sample_request "slow-write")
                                    (world0 0))) in
  conn_written tr = bytes_of "HTTP/" /\ accepted tr = bytes_of "HTTP/1".
Proof. split; reflexivity. Qed.

(** C1, as the claim words it, fails when a write to the connection is
    refused: with the hijack succeeding and the sixth byte refused by the
    connection, five bytes are written to it, not the whole response. *)
Lemma slow_write_cut_short :
  Get (Query (sample_request "slow-write")) "action" = "slow-write" /\
  hijackResult (broken_at 5) = None /\
  conn_written (trace (final (ServeHTTP (broken_at 5) (sample_request "slow-write")
                                        (world0 0))))
  <> spec_response (Host (sample_request "slow-write")).
Proof.
  split; [reflexivity|]. split; [reflexivity|].
  vm_compute. discriminate.
Qed.

(** C1 (amended): for a readable request with [action=slow-write] whose
    hijack succeeds, the response handed to the byte-wise writer is exactly
    the status line, the [Host] header with the request's host, the
    [Content-Length] header with the byte length of the document, the
    [Content-Type] header, the blank line and the document; the bytes
    written to the connection are a prefix of it, and the whole of it when
    no write to the connection fails. *)
Theorem slow_write_sends_the_response
    (env : Env) (req : Request) (dump : string) (c : Z) :
  dumpResult req = inl dump ->
  Get (Query req) "action" = "slow-write" ->
  hijackResult env = None ->
  let tr := trace (final (ServeHTTP env req (world0 c))) in
  resp req = spec_response (Host req) /\
  (exists rest, spec_response (Host req) = conn_written tr ++ rest) /\
  ((forall i, connWriteResult env i = None) ->
   conn_written tr = spec_response (Host req)).
Proof.
  intros Hd Ha Hh tr. subst tr.
  split; [apply resp_spec_response|].
  rewrite <- resp_spec_response.
  destruct (ServeHTTP_slow_cases env req dump c Hd Ha Hh)
    as [[Hall (wr & ->)]
       | [(init & l & e & Hr & Hinit & He & wr & ->)
         | (pre & b & b' & post & e & Hr & Hpre & He & wr & ->)]].
  - observe. rewrite !app_nil_r. split; [exists []; now rewrite app_nil_r|auto].
  - observe. rewrite !app_nil_r. split.
    + exists [l]. exact Hr.
    + intros Hnone. rewrite Hnone in He. discriminate.
  - observe. rewrite !app_nil_r. split.
    + exists (b :: b' :: post). exact Hr.
    + intros Hnone. rewrite Hnone in He. discriminate.
Qed.

Lemma slow_write_sends_the_response_witness :
  Get (Query (sample_request "slow-write")) "action" = "slow-write" /\
  hijackResult calm = None /\
  resp (sample_request "slow-write") = spec_response "localhost:7080".
Proof.
  split; [reflexivity|]. split; [reflexivity|].
  exact (proj1 (slow_write_sends_the_response calm (sample_request "slow-write") _ 0
                  eq_refl eq_refl eq_refl)).
Defined.

Lemma skipn_length_app {A} (pre post : list A) :
  skipn (List.length pre) (pre ++ post) = post.
Proof. induction pre as [|a pre IH]; simpl; auto. Qed.

Example slow_write_run :
  firstn 10 (filter on_the_wire
    (trace (final (ServeHTTP calm (sample_request "slow-write") (world0 0)))))
  = [ EHijack None;
      ESleep 100; EWrite "H" None; EFlush; EConnWrite ["H"%byte] None;
      ESleep 100; EWrite "T" None; EFlush; EConnWrite ["T"%byte] None;
      ESleep 100 ].
Proof. reflexivity. Qed.

(** C2: for a readable request with [action=slow-write] whose hijack
    succeeds and whose writes to the connection all succeed, the handler
    returns, and on the connection it has, after the hijack and before the
    close, for each byte of the response in turn slept 100 milliseconds,
    handed that one byte to the writer and flushed it, which wrote that one
    byte to the connection. The bytes written to the connection are the
    head and then the document, whose length is the number in the
    [Content-Length] header; byte number [i] leaves no earlier than
    [100 * (i + 1)] milliseconds after the start, so the last byte of the
    body leaves at least [(length - 1) * 100] milliseconds after its
    first. *)
Theorem slow_write_paces_the_bytes
    (env : Env) (req : Request) (dump : string) (c : Z) :
  dumpResult req = inl dump ->
  Get (Query req) "action" = "slow-write" ->
  hijackResult env = None ->
  (forall i, connWriteResult env i = None) ->
  let out := ServeHTTP env req (world0 c) in
  let tr := trace (final out) in
  let head := List.length (spec_head (Host req)) in
  let body := List.length (bytes_of limeric) in
  returns out = true /\
  filter on_the_wire tr =
    [EHijack None] ++ paced (spec_response (Host req)) ++ [EClose (closeResult env)] /\
  conn_written tr = spec_head (Host req) ++ bytes_of limeric /\
  skipn head (conn_written tr) = bytes_of limeric /\
  (exists pre post,
     spec_head (Host req) =
       pre ++ bytes_of ("Content-Length: " +++ Itoa (Z.of_nat body) +++ CRLF) ++ post) /\
  arrivals 0 tr = stamps 0 (spec_response (Host req)) /\
  (exists t_first t_last,
     arrival_time tr head = Some t_first /\
     arrival_time tr (head + body - 1) = Some t_last /\
     t_last - t_first = (Z.of_nat body - 1) * 100).
Proof.
  intros Hd Ha Hh Hw out tr head body. subst out tr head body.
  destruct (ServeHTTP_slow_through env c req dump Hd Ha Hh (fun i _ => Hw i))
    as [wr ->].
  rewrite (pacing_paced _ (resp req) 0) by (intros i _; apply Hw).
  rewrite resp_spec_response.
  assert (Harr : arrivals 0 (entered c req dump ++ hijacking req ++
                   paced (spec_response (Host req)) ++ [EClose (closeResult env)])
                 = stamps 0 (spec_response (Host req))).
  { rewrite !arrivals_app.
    destruct (arrivals_entered c req dump 0) as [-> ->].
    destruct (arrivals_hijacking req (0 + 0)) as [-> ->].
    rewrite arrivals_paced. cbn [arrivals app]. rewrite app_nil_r.
    reflexivity. }
  split; [reflexivity|].
  unfold final, arrival_time. rewrite trace_mkWorld, Harr.
  split; [|split; [|split; [|split; [|split]]]].
  - observe. reflexivity.
  - observe. rewrite spec_response_head. apply app_nil_r.
  - observe. rewrite spec_response_head, app_nil_r.
    apply skipn_length_app.
  - exists (bytes_of ("HTTP/1.1 200 OK" +++ CRLF) ++
            bytes_of ("Host: " +++ Host req +++ CRLF)),
           (bytes_of ("Content-Type: text/plain" +++ CRLF) ++ bytes_of CRLF).
    unfold spec_head. rewrite <- !app_assoc. reflexivity.
  - reflexivity.
  - assert (Hlen : List.length (spec_response (Host req)) =
                   (List.length (spec_head (Host req)) +
                    List.length (bytes_of limeric))%nat).
    { rewrite spec_response_head. apply length_app. }
    assert (Hbody : List.length (bytes_of limeric) = 152%nat) by reflexivity.
    do 2 eexists. split; [|split].
    + apply stamps_fst. lia.
    + apply stamps_fst. lia.
    + rewrite Hbody. lia.
Qed.

Lemma slow_write_paces_the_bytes_witness :
  Get (Query (sample_request "slow-write")) "action" = "slow-write" /\
  hijackResult calm = None /\
  (forall i, connWriteResult calm i = None) /\
  returns (ServeHTTP calm (sample_request "slow-write") (world0 0)) = true.
Proof.
  split; [reflexivity|]. split; [reflexivity|]. split; [reflexivity|].
  apply (slow_write_paces_the_bytes calm (sample_request "slow-write") _ 0
           eq_refl eq_refl eq_refl (fun _ => eq_refl)).
Defined.

Example slow_write_failure_run :
  skipn 25 (trace (final (ServeHTTP (broken_at 5) (sample_request "slow-write")
                                    (world0 0))))
  = [ ESleep 100; EWrite "1" None; EFlush;
      EConnWrite ["1"%byte] (Some "broken pipe");
      ESleep 100; EWrite "." (Some "broken pipe"); EClose None;
      ELog (mkRecord LevelError "writing response"
              [("error", AError "writing response: broken pipe");
               ("request_id", AInt64 1); ("conn_id", AInt64 1)]);
      EDropped 500 ("can't properly write response" +++ LF) ].
Proof. reflexivity. Qed.

(** C5, at the input where the code departs from it: the response to
    [sample_request] has 240 bytes; when the connection takes the first 239
    and refuses the last one, no [w.Write] fails, because the error of the
    flush is dropped and no write follows it. [slowWrite] returns nil and
    the request ends without any record of level [Error], though a byte
    write failed and one byte of the body never left. *)
Lemma slow_write_last_byte_failure_is_not_logged :
  let out := ServeHTTP (broken_at 239) (sample_request "slow-write") (world0 0) in
  let tr := trace (final out) in
  Get (Query (sample_request "slow-write")) "action" = "slow-write" /\
  hijackResult (broken_at 239) = None /\
  List.length (resp (sample_request "slow-write")) = 240%nat /\
  connWriteResult (broken_at 239) 239 = Some "broken pipe" /\
  In (EConnWrite [byte_of_ascii "010"] (Some "broken pipe")) tr /\
  List.length (conn_written tr) = 239%nat /\
  List.length (accepted tr) = 240%nat /\
  filter is_failure tr = [] /\
  filter is_error_log tr = [] /\
  returns out = true.
Proof.
  vm_compute. repeat split; try reflexivity.
  repeat (first [left; reflexivity | right]).
Qed.

(** ** The request counter *)

Lemma ServeHTTP_default (env : Env) (req : Request) (dump : string) (c : Z) :
  dumpResult req = inl dump ->
  Get (Query req) "action" = "" ->
  ServeHTTP env req (world0 c) =
  Returned tt (mkWorld (rev (entered c req dump ++
                             [EServeContent "limeric.txt" limeric]))
                       false NewWriter (Atomic.Add c 1)).
Proof.
  intros Hd Ha. unfold ServeHTTP, entered. rewrite Hd, Ha.
  unfold bind, counter_Add, fmt_Println, http_ServeContent.
  rewrite slog_InfoContext_run. reflexivity.
Qed.

(** Every request draws exactly one identifier from [srv.counter], the one
    [assign] hands out for [NewRequest]; it is the [request_id] of the
    records logged with the handler's context. *)
Lemma ServeHTTP_draws_one_identifier (env : Env) (req : Request) (p : Process) :
  counter (final (ServeHTTP env req (world0 (srv_counter p))))
  = snd (assign p NewRequest) /\
  Value (ctx_of (srv_counter p) req) requestIDKey
  = Some (AInt64 (snd (assign p NewRequest))).
Proof.
  split; [|reflexivity].
  simpl snd. set (c := srv_counter p).
  destruct (dumpResult req) as [dump|e] eqn:Hd.
  2: { rewrite (ServeHTTP_unreadable env c req e Hd). reflexivity. }
  destruct (String.eqb_spec (Get (Query req) "action") "") as [H0|H0].
  { rewrite (ServeHTTP_default env req dump c Hd H0). reflexivity. }
  destruct (String.eqb_spec (Get (Query req) "action") "hang") as [H1|H1].
  { destruct (cancelled env) eqn:Hc.
    - rewrite (ServeHTTP_hang_cancelled env c req dump Hd H1 Hc). reflexivity.
    - rewrite (ServeHTTP_hang_never_cancelled env c req dump Hd H1 Hc). reflexivity. }
  destruct (String.eqb_spec (Get (Query req) "action") "close") as [H2|H2].
  { destruct (hijackResult env) as [e|] eqn:Hh.
    - rewrite (ServeHTTP_close_not_hijacked env c req dump Hd e H2 Hh). reflexivity.
    - rewrite (ServeHTTP_close_hijacked env c req dump Hd H2 Hh). reflexivity. }
  destruct (String.eqb_spec (Get (Query req) "action") "slow-write") as [H3|H3].
  { destruct (hijackResult env) as [e|] eqn:Hh.
    - rewrite (ServeHTTP_slow_not_hijacked env c req dump Hd e H3 Hh). reflexivity.
    - destruct (ServeHTTP_slow_cases env req dump c Hd H3 Hh)
        as [[_ (wr & ->)]
           | [(init & l & e & _ & _ & _ & wr & ->)
             | (pre & b & b' & post & e & _ & _ & _ & wr & ->)]]; reflexivity. }
  rewrite (ServeHTTP_unknown env c req dump Hd H0 H1 H2 H3). reflexivity.
Qed.

(** * Beyond the claims *)

(** ** Every way through [ServeHTTP] *)

Lemma ServeHTTP_path (env : Env) (req : Request) (c : Z) :
  Path env req c (trace (final (ServeHTTP env req (world0 c))))
                 (returns (ServeHTTP env req (world0 c)))
                 (hijacked (final (ServeHTTP env req (world0 c)))).
Proof.
  destruct (dumpResult req) as [dump|e] eqn:Hd.
  2: { rewrite (ServeHTTP_unreadable env c req e Hd).
       unfold final, returns. rewrite trace_mkWorld. now constructor. }
  destruct (String.eqb_spec (Get (Query req) "action") "") as [H0|H0].
  { rewrite (ServeHTTP_default env req dump c Hd H0).
    unfold final, returns. rewrite trace_mkWorld. now constructor. }
  destruct (String.eqb_spec (Get (Query req) "action") "hang") as [H1|H1].
  { destruct (cancelled env) eqn:Hc.
    - rewrite (ServeHTTP_hang_cancelled env c req dump Hd H1 Hc).
      unfold final, returns. rewrite trace_mkWorld. now constructor.
    - rewrite (ServeHTTP_hang_never_cancelled env c req dump Hd H1 Hc).
      unfold final, returns. rewrite trace_mkWorld. now constructor. }
  destruct (String.eqb_spec (Get (Query req) "action") "close") as [H2|H2].
  { destruct (hijackResult env) as [e|] eqn:Hh.
    - rewrite (ServeHTTP_close_not_hijacked env c req dump Hd e H2 Hh).
      unfold final, returns. rewrite trace_mkWorld. now constructor.
    - rewrite (ServeHTTP_close_hijacked env c req dump Hd H2 Hh).
      unfold final, returns. rewrite trace_mkWorld. now constructor. }
  destruct (String.eqb_spec (Get (Query req) "action") "slow-write") as [H3|H3].
  { destruct (hijackResult env) as [e|] eqn:Hh.
    - rewrite (ServeHTTP_slow_not_hijacked env c req dump Hd e H3 Hh).
      unfold final, returns. rewrite trace_mkWorld. now constructor.
    - destruct (ServeHTTP_slow_cases env req dump c Hd H3 Hh)
        as [[Hall (wr & ->)]
           | [(init & l & e & Hr & Hinit & He & wr & ->)
             | (pre & b & b' & post & e & Hr & Hpre & He & wr & ->)]];
        unfold final, returns; rewrite trace_mkWorld.
      + now constructor.
      + now apply (P_slow_last_lost env req c dump init l e).
      + now apply (P_slow_refused env req c dump pre b b' post e). }
  rewrite (ServeHTTP_unknown env c req dump Hd H0 H1 H2 H3).
  unfold final, returns. rewrite trace_mkWorld. now constructor.
Qed.

(** Each way through [ServeHTTP] is taken when its conditions hold. *)
Lemma Path_sound (env : Env) (req : Request) (c : Z)
    (tr : list Event) (ret hij : bool) :
  Path env req c tr ret hij ->
  trace (final (ServeHTTP env req (world0 c))) = tr /\
  returns (ServeHTTP env req (world0 c)) = ret /\
  hijacked (final (ServeHTTP env req (world0 c))) = hij.
Proof.
  intros HP.
  destruct HP as
    [ e Hd | dump Hd Ha | dump Hd Ha Hc | dump Hd Ha Hc | dump Hd Ha Hh
    | dump e Hd Ha Hh | dump e Hd Ha Hh | dump Hd Ha Hh Hall
    | dump init l e Hd Ha Hh Hr Hinit He
    | dump pre b b' post e Hd Ha Hh Hr Hpre He
    | dump Hd H0 H1 H2 H3 ].
  - rewrite (ServeHTTP_unreadable env c req e Hd).
    unfold final, returns. rewrite trace_mkWorld. auto.
  - rewrite (ServeHTTP_default env req dump c Hd Ha).
    unfold final, returns. rewrite trace_mkWorld. auto.
  - rewrite (ServeHTTP_hang_cancelled env c req dump Hd Ha Hc).
    unfold final, returns. rewrite trace_mkWorld. auto.
  - rewrite (ServeHTTP_hang_never_cancelled env c req dump Hd Ha Hc).
    unfold final, returns. rewrite trace_mkWorld. auto.
  - rewrite (ServeHTTP_close_hijacked env c req dump Hd Ha Hh).
    unfold final, returns. rewrite trace_mkWorld. auto.
  - rewrite (ServeHTTP_close_not_hijacked env c req dump Hd e Ha Hh).
    unfold final, returns. rewrite trace_mkWorld. auto.
  - rewrite (ServeHTTP_slow_not_hijacked env c req dump Hd e Ha Hh).
    unfold final, returns. rewrite trace_mkWorld. auto.
  - destruct (ServeHTTP_slow_all env c req dump Hd Ha Hh Hall) as [wr ->].
    unfold final, returns. rewrite trace_mkWorld. auto.
  - destruct (ServeHTTP_slow_last_lost env c req dump init l e Hd Ha Hh Hr Hinit He)
      as [wr ->].
    unfold final, returns. rewrite trace_mkWorld. auto.
  - destruct (ServeHTTP_slow_refused env c req dump Hd pre b b' post e Ha Hh Hr Hpre He)
      as [wr ->].
    unfold final, returns. rewrite trace_mkWorld. auto.
  - rewrite (ServeHTTP_unknown env c req dump Hd H0 H1 H2 H3).
    unfold final, returns. rewrite trace_mkWorld. auto.
Qed.

(** ** [writeStrs] *)

Lemma append_assoc (a b c : string) : (a +++ b) +++ c = a +++ (b +++ c).
Proof. induction a as [|x a IH]; simpl; [|rewrite IH]; reflexivity. Qed.

Lemma append_nil_r (a : string) : a +++ "" = a.
Proof. induction a as [|x a IH]; simpl; [|rewrite IH]; reflexivity. Qed.

Lemma length_append (a b : string) :
  String.length (a +++ b) = (String.length a + String.length b)%nat.
Proof. induction a as [|x a IH]; simpl; [|rewrite IH]; reflexivity. Qed.

(** All of [strs] joined, first to last. *)
Lemma concat_cons (s : string) (strs : list string) :
  String.concat "" (s :: strs) = s +++ String.concat "" strs.
Proof. destruct strs; simpl; [rewrite append_nil_r|]; reflexivity. Qed.

(** X1: On a [strings.Builder], [writeStrs] appends the strings in order to
    what the builder held, and nothing else; with no strings the builder is
    left as it was. *)
Theorem writeStrs_Builder_appends (b : Builder) (strs : list string) :
  writeStrs b strs = b +++ String.concat "" strs.
Proof.
  unfold writeStrs. revert b.
  induction strs as [|s strs IH]; intros b.
  - simpl. symmetry. apply append_nil_r.
  - cbn [fold_left]. rewrite IH, concat_cons.
    unfold WriteString, Builder_StringWriter. apply append_assoc.
Qed.

(** X2: On a [bytes.Buffer], [writeStrs] appends the bytes of the strings in
    order: writing to a buffer and writing to a builder agree byte for byte,
    whatever was written before. *)
Theorem writeStrs_Buffer_agrees_with_Builder (b : Builder) (strs : list string) :
  writeStrs (bytes_of b : Buffer) strs = bytes_of (writeStrs b strs).
Proof.
  unfold writeStrs. revert b.
  induction strs as [|s strs IH]; intros b; [reflexivity|].
  cbn [fold_left]. rewrite <- IH.
  unfold WriteString at 2 4, Buffer_StringWriter, Builder_StringWriter.
  rewrite bytes_of_app. reflexivity.
Qed.

(** ** The size of the slow response *)

(** The response of [slowWrite] is 226 bytes and the bytes of the host. *)
Lemma length_resp (req : Request) :
  List.length (resp req) = (226 + String.length (Host req))%nat.
Proof.
  rewrite resp_spec_response. unfold spec_response.
  rewrite !length_app, !length_bytes_of, !length_append.
  change (String.length (Itoa (Z.of_nat (List.length (bytes_of limeric))))) with 3%nat.
  change (String.length limeric) with 152%nat.
  change (String.length CRLF) with 2%nat.
  simpl String.length. lia.
Qed.

(** ** Traces of paced bytes and of log records *)

Lemma filter_paced_none (f : Event -> bool) (bs : list byte) :
  f (ESleep 100) = false -> f EFlush = false ->
  (forall b, f (EWrite b None) = false) ->
  (forall b, f (EConnWrite [b] None) = false) ->
  filter f (paced bs) = [].
Proof.
  intros Hs Hf Hw Hc. induction bs as [|b bs IH]; simpl; [reflexivity|].
  rewrite Hs, Hw, Hf, Hc. exact IH.
Qed.

Lemma accepted_paced (bs : list byte) : accepted (paced bs) = bs.
Proof. induction bs as [|b bs IH]; simpl; [|f_equal]; auto. Qed.

Lemma accepted_app (a b : list Event) :
  accepted (a ++ b) = accepted a ++ accepted b.
Proof. apply flat_map_app. Qed.

Lemma slept_paced (bs : list byte) :
  slept (paced bs) = 100 * Z.of_nat (List.length bs).
Proof.
  induction bs as [|b bs IH]; [reflexivity|].
  cbn [paced flat_map app slept List.length]. fold (paced bs).
  rewrite IH. lia.
Qed.

Lemma length_filter_write_paced (bs : list byte) :
  List.length (filter is_write (paced bs)) = List.length bs.
Proof. induction bs as [|b bs IH]; simpl; [|f_equal]; auto. Qed.

Lemma length_filter_flush_paced (bs : list byte) :
  List.length (filter is_flush (paced bs)) = List.length bs.
Proof. induction bs as [|b bs IH]; simpl; [|f_equal]; auto. Qed.

(** Gives every log event of the goal its record. *)
Ltac name_logs :=
  repeat match goal with
  | |- context [log_event ?c ?l ?m ?a] =>
      let r := fresh "r" in
      let Hl := fresh "Hlevel" in
      destruct (log_event_level c l m a) as (r & -> & Hl & _ & _)
  end.

(** ** The default action and the query *)

Lemma Get_absent (v : Values) (key : string) :
  ~ In key (map fst v) -> Get v key = "".
Proof.
  unfold Get. induction v as [|[k vs] v IH]; simpl; intros H; [reflexivity|].
  destruct (String.eqb_spec k key) as [->|Hk].
  - elim H. now left.
  - apply IH. intros Hin. apply H. now right.
Qed.

(** X3: A readable request without any [action] parameter is served the
    document as [limeric.txt] through the response writer; the handler
    returns, the connection is neither hijacked nor closed and no error
    reply is sent. *)
Theorem no_action_serves_the_document
    (env : Env) (req : Request) (dump : string) (c : Z) :
  dumpResult req = inl dump ->
  ~ In "action" (map fst (Query req)) ->
  let out := ServeHTTP env req (world0 c) in
  returns out = true /\
  filter is_action (trace (final out)) = [EServeContent "limeric.txt" limeric] /\
  conn_ops (trace (final out)) = [] /\
  responses (trace (final out)) = [] /\
  hijacked (final out) = false.
Proof.
  intros Hd Habs out. subst out.
  rewrite (ServeHTTP_default env req dump c Hd (Get_absent _ _ Habs)).
  observe. repeat split; reflexivity.
Qed.

Lemma no_action_serves_the_document_witness :
  ~ In "action" (map fst [("verbose", ["1"])]) /\
  returns (ServeHTTP calm (mkRequest "localhost:7080" [("verbose", ["1"])] []
                                     (inl "GET /?verbose=1 HTTP/1.1")) (world0 0))
  = true.
Proof.
  assert (H : ~ In "action" (map fst [("verbose", ["1"])])).
  { simpl. intros [H|[]]. discriminate H. }
  split; [exact H|].
  exact (proj1 (no_action_serves_the_document calm
                  (mkRequest "localhost:7080" [("verbose", ["1"])] []
                             (inl "GET /?verbose=1 HTTP/1.1"))
                  _ 0 eq_refl H)).
Defined.

(** X4: Of the query, [ServeHTTP] uses the first value of [action] and
    nothing else. A request with another query (other parameters, further
    values of [action]) and therefore another dump, but the same first value
    of [action], the same host and the same context, is handled alike:
    after the dump printed first the two traces are the same, and so are
    the return of the handler, the fate of the connection and the request
    counter. *)
Theorem only_first_action_value_counts
    (env : Env) (req : Request) (dump : string)
    (query' : Values) (dump' : string) (c : Z) :
  dumpResult req = inl dump ->
  Get query' "action" = Get (Query req) "action" ->
  let out := ServeHTTP env req (world0 c) in
  let out' := ServeHTTP env (mkRequest (Host req) query' (reqContext req) (inl dump'))
                        (world0 c) in
  tl (trace (final out')) = tl (trace (final out)) /\
  returns out' = returns out /\
  hijacked (final out') = hijacked (final out) /\
  counter (final out') = counter (final out).
Proof.
  intros Hd Hq out out'. subst out out'.
  set (req' := mkRequest (Host req) query' (reqContext req) (inl dump')).
  assert (Hcount : counter (final (ServeHTTP env req' (world0 c))) =
                   counter (final (ServeHTTP env req (world0 c)))).
  { transitivity (Atomic.Add c 1).
    - exact (proj1 (ServeHTTP_draws_one_identifier env req' (mkProcess 0 c))).
    - symmetry.
      exact (proj1 (ServeHTTP_draws_one_identifier env req (mkProcess 0 c))). }
  rewrite Hcount. clear Hcount.
  assert (Hq' : Get (Query req') "action" = Get (Query req) "action") by exact Hq.
  assert (HP : forall tr ret hij,
            Path env req' c tr ret hij ->
            tl (trace (final (ServeHTTP env req' (world0 c)))) = tl tr /\
            returns (ServeHTTP env req' (world0 c)) = ret /\
            hijacked (final (ServeHTTP env req' (world0 c))) = hij).
  { intros tr ret hij H. destruct (Path_sound _ _ _ _ _ _ H) as (-> & -> & ->).
    auto. }
  destruct (ServeHTTP_path env req c) as
    [ e Hd0 | dump0 Hd0 Ha | dump0 Hd0 Ha Hc | dump0 Hd0 Ha Hc | dump0 Hd0 Ha Hh
    | dump0 e Hd0 Ha Hh | dump0 e Hd0 Ha Hh | dump0 Hd0 Ha Hh Hall
    | dump0 init l e Hd0 Ha Hh Hr Hinit He
    | dump0 pre b b' post e Hd0 Ha Hh Hr Hpre He
    | dump0 Hd0 H0 H1 H2 H3 ];
    [congruence| | | | | | | | | | ].
  - destruct (HP _ _ _ (P_default env req' c dump' eq_refl (eq_trans Hq' Ha)))
      as (-> & -> & ->).
    unfold entered. cbn [app tl]. rewrite Hq'. auto.
  - destruct (HP _ _ _ (P_hang_cancelled env req' c dump' eq_refl (eq_trans Hq' Ha) Hc))
      as (-> & -> & ->).
    unfold entered. cbn [app tl]. rewrite Hq'. auto.
  - destruct (HP _ _ _ (P_hang_blocked env req' c dump' eq_refl (eq_trans Hq' Ha) Hc))
      as (-> & -> & ->).
    unfold entered. cbn [app tl]. rewrite Hq'. auto.
  - destruct (HP _ _ _ (P_close env req' c dump' eq_refl (eq_trans Hq' Ha) Hh))
      as (-> & -> & ->).
    unfold entered. cbn [app tl]. rewrite Hq'. auto.
  - destruct (HP _ _ _ (P_close_not_hijacked env req' c dump' e eq_refl
                          (eq_trans Hq' Ha) Hh)) as (-> & -> & ->).
    unfold entered. cbn [app tl]. rewrite Hq'. auto.
  - destruct (HP _ _ _ (P_slow_not_hijacked env req' c dump' e eq_refl
                          (eq_trans Hq' Ha) Hh)) as (-> & -> & ->).
    unfold entered. cbn [app tl]. rewrite Hq'. auto.
  - destruct (HP _ _ _ (P_slow env req' c dump' eq_refl (eq_trans Hq' Ha) Hh Hall))
      as (-> & -> & ->).
    unfold entered. cbn [app tl]. rewrite Hq'. auto.
  - destruct (HP _ _ _ (P_slow_last_lost env req' c dump' init l e eq_refl
                          (eq_trans Hq' Ha) Hh Hr Hinit He)) as (-> & -> & ->).
    unfold entered. cbn [app tl]. rewrite Hq'. auto.
  - destruct (HP _ _ _ (P_slow_refused env req' c dump' pre b b' post e eq_refl
                          (eq_trans Hq' Ha) Hh Hr Hpre He)) as (-> & -> & ->).
    unfold entered. cbn [app tl]. rewrite Hq'. auto.
  - assert (N0 : Get (Query req') "action" <> "") by (rewrite Hq'; exact H0).
    assert (N1 : Get (Query req') "action" <> "hang") by (rewrite Hq'; exact H1).
    assert (N2 : Get (Query req') "action" <> "close") by (rewrite Hq'; exact H2).
    assert (N3 : Get (Query req') "action" <> "slow-write") by (rewrite Hq'; exact H3).
    destruct (HP _ _ _ (P_unknown env req' c dump' eq_refl N0 N1 N2 N3))
      as (-> & -> & ->).
    unfold entered. cbn [app tl]. rewrite Hq'. auto.
Qed.

Lemma only_first_action_value_counts_witness :
  Get [("action", ["close"; "hang"]); ("x", ["y"])] "action"
  = Get (Query (sample_request "close")) "action" /\
  tl (trace (final (ServeHTTP calm
        (mkRequest "localhost:7080" [("action", ["close"; "hang"]); ("x", ["y"])]
                   [(connIDCtxKey, AInt64 1)]
                   (inl ("GET /?action=close&action=hang&x=y HTTP/1.1" +++ CRLF +++
                         "Host: localhost:7080" +++ CRLF +++ CRLF)))
        (world0 0))))
  = tl (trace (final (ServeHTTP calm (sample_request "close") (world0 0)))).
Proof.
  split; [reflexivity|].
  exact (proj1 (only_first_action_value_counts calm (sample_request "close") _
                  [("action", ["close"; "hang"]); ("x", ["y"])]
                  ("GET /?action=close&action=hang&x=y HTTP/1.1" +++ CRLF +++
                   "Host: localhost:7080" +++ CRLF +++ CRLF)
                  0 eq_refl eq_refl)).
Defined.

(** ** Hijacking and closing *)

Ltac path_facts :=
  unfold readable, hijacks;
  repeat match goal with
  | H : dumpResult _ = _ |- _ => rewrite H; clear H
  | H : Get _ _ = _ |- _ => rewrite H; clear H
  | H : Get _ _ <> _ |- _ => apply String.eqb_neq in H; rewrite H; clear H
  | H : hijackResult _ = _ |- _ => rewrite H
  end.

Ltac path_trace :=
  unfold conn_ops, entered, hijacking; name_logs;
  repeat progress
    (rewrite ?filter_app;
     rewrite ?filter_paced_none by reflexivity;
     cbn [filter app is_hijack is_close is_conn_op is_dropped is_println
          is_failure is_error_log is_log andb orb
          String.eqb Ascii.eqb Bool.eqb]).

(** X6: [ServeHTTP] calls [Hijack] once when the request is readable and its
    action is [close] or [slow-write], and never otherwise; the connection
    ends up hijacked exactly when that one call succeeds. *)
Theorem hijack_once_and_only_for_close_and_slow_write
    (env : Env) (req : Request) (c : Z) :
  let out := ServeHTTP env req (world0 c) in
  filter is_hijack (trace (final out)) =
    (if readable req && hijacks (Get (Query req) "action")
     then [EHijack (hijackResult env)] else []) /\
  hijacked (final out) =
    (readable req && hijacks (Get (Query req) "action") &&
     match hijackResult env with None => true | Some _ => false end).
Proof.
  intros out. subst out.
  destruct (ServeHTTP_path env req c); path_facts; path_trace;
    split; reflexivity.
Qed.

(** X7: A connection the handler has hijacked is closed by it exactly once,
    as the last thing done to the connection, also when a write failed; a
    connection it has not hijacked it never closes. *)
Theorem hijacked_connection_is_closed_last
    (env : Env) (req : Request) (c : Z) :
  let out := ServeHTTP env req (world0 c) in
  filter is_close (trace (final out)) =
    (if hijacked (final out) then [EClose (closeResult env)] else []) /\
  (hijacked (final out) = true ->
   exists before, conn_ops (trace (final out)) = before ++ [EClose (closeResult env)]).
Proof.
  intros out. subst out.
  destruct (ServeHTTP_path env req c); path_trace;
    (split; [reflexivity|]); try discriminate; intros _.
  - exists [EHijack None]. reflexivity.
  - exists (EHijack None :: filter is_conn_op (paced (resp req))). reflexivity.
  - exists (EHijack None :: filter is_conn_op (paced init) ++
            [EWrite l None; EFlush; EConnWrite [l] (Some e)]).
    cbn [app]. rewrite <- app_assoc. reflexivity.
  - exists (EHijack None :: filter is_conn_op (paced pre) ++
            [EWrite b None; EFlush; EConnWrite [b] (Some e); EWrite b' (Some e)]).
    cbn [app]. rewrite <- app_assoc. reflexivity.
Qed.

(** X8: Once the connection is hijacked nothing is sent through the response
    writer. The handler does write to the hijacked response writer in one
    case only, where the write is dropped: the 500 after a failed write of
    [slow-write], that is, after [w.Write] reported that the connection had
    refused a byte before the last one. *)
Theorem hijacked_response_writer_sends_nothing
    (env : Env) (req : Request) (c : Z) :
  let out := ServeHTTP env req (world0 c) in
  (hijacked (final out) = true -> responses (trace (final out)) = []) /\
  (filter is_dropped (trace (final out)) = [] \/
   filter is_dropped (trace (final out)) =
     [EDropped StatusInternalServerError ("can't properly write response" +++ LF)]) /\
  (filter is_dropped (trace (final out)) <> [] <->
   filter is_failure (trace (final out)) <> [] /\ hijacked (final out) = true) /\
  (filter is_dropped (trace (final out)) <> [] <->
   readable req = true /\ Get (Query req) "action" = "slow-write" /\
   hijackResult env = None /\
   exists i, (S i < List.length (resp req))%nat /\ connWriteResult env i <> None).
Proof.
  intros out. subst out.
  destruct (ServeHTTP_path env req c) as
    [ e Hd | dump Hd Ha | dump Hd Ha Hc | dump Hd Ha Hc | dump Hd Ha Hh
    | dump e Hd Ha Hh | dump e Hd Ha Hh | dump Hd Ha Hh Hall
    | dump init l e Hd Ha Hh Hr Hinit He
    | dump pre b b' post e Hd Ha Hh Hr Hpre He
    | dump Hd H0 H1 H2 H3 ];
    (split; [intros Hj; try discriminate Hj; observe; reflexivity|]);
    path_trace;
    (split; [auto|]);
    (split; [split; [intros Hx | intros [Hx Hj]]
            |split; [intros Hy | intros (Hrd & Ha' & Hh' & i & Hi & Hw)]]).
  all: try (now elim Hx).
  all: try (now elim Hy).
  all: try discriminate.
  all: try discriminate Hj.
  all: try (split; [discriminate|reflexivity]).
  all: try (unfold readable in Hrd; try congruence;
            try (rewrite Hd in Hrd; discriminate Hrd)).
  - elim Hw. apply Hall. lia.
  - elim Hw. apply Hinit. rewrite Hr, length_app in Hi. simpl in Hi. lia.
  - unfold readable. rewrite Hd. repeat split; auto.
    exists (List.length pre). split.
    + rewrite Hr, length_app. simpl. lia.
    + rewrite He. discriminate.
Qed.

(** ** Pacing of [slow-write] under failures *)

Lemma length_filter_app {A} (f : A -> bool) (a b : list A) :
  List.length (filter f (a ++ b)) =
  (List.length (filter f a) + List.length (filter f b))%nat.
Proof. rewrite filter_app. apply length_app. Qed.

(** X9: Whatever the connection does, a [slow-write] whose hijack succeeded
    sleeps 100 milliseconds before each write it attempts and never
    otherwise, flushes once per accepted byte, attempts at most one write
    after the accepted ones, and no more writes than the response has bytes
    (226 and the host); so it sleeps at most [100 * (226 + len(host))]
    milliseconds, and exactly that long when no [w.Write] fails, that is,
    when the connection refuses no byte before the last. Of the accepted
    bytes all, or all but the last, are written to the connection. *)
Theorem slow_write_sleeps_once_per_write
    (env : Env) (req : Request) (dump : string) (c : Z) :
  dumpResult req = inl dump ->
  Get (Query req) "action" = "slow-write" ->
  hijackResult env = None ->
  let tr := trace (final (ServeHTTP env req (world0 c))) in
  slept tr = 100 * Z.of_nat (List.length (filter is_write tr)) /\
  List.length (filter is_flush tr) = List.length (accepted tr) /\
  (List.length (accepted tr) <= List.length (filter is_write tr)
     <= List.length (accepted tr) + 1)%nat /\
  (List.length (filter is_write tr) <= 226 + String.length (Host req))%nat /\
  ((forall i, (S i < List.length (resp req))%nat -> connWriteResult env i = None) ->
   slept tr = 100 * (226 + len (Host req))) /\
  (List.length (conn_written tr) <= List.length (accepted tr)
     <= List.length (conn_written tr) + 1)%nat.
Proof.
  intros Hd Ha Hh tr. subst tr.
  pose proof (length_resp req) as Hlen.
  destruct (ServeHTTP_slow_cases env req dump c Hd Ha Hh)
    as [[Hall (wr & ->)]
       | [(init & l & e & Hr & Hinit & He & wr & ->)
         | (pre & b & b' & post & e & Hr & Hpre & He & wr & ->)]];
    unfold final; rewrite trace_mkWorld;
    rewrite !slept_app, !length_filter_app, !accepted_app, !conn_written_app,
      !length_app;
    rewrite slept_paced, length_filter_write_paced, length_filter_flush_paced,
      accepted_paced, conn_written_paced;
    destruct (arrivals_entered c req dump 0) as [_ ->];
    destruct (arrivals_hijacking req 0) as [_ ->];
    unfold entered, hijacking; name_logs;
    cbn [filter is_write is_flush accepted conn_written flat_map accepted_by
         written_by app List.length slept].
  - rewrite Hlen. unfold len. repeat split; try lia.
  - rewrite Hr, length_app in Hlen. cbn [List.length] in Hlen.
    unfold len. repeat split; try lia.
  - rewrite Hr, length_app in Hlen. cbn [List.length] in Hlen.
    repeat split; try lia.
    intros Hnone. rewrite Hnone in He; [discriminate|].
    rewrite Hr, length_app. simpl. lia.
Qed.

Lemma slow_write_sleeps_once_per_write_witness :
  Get (Query (sample_request "slow-write")) "action" = "slow-write" /\
  hijackResult (broken_at 5) = None /\
  slept (trace (final (ServeHTTP (broken_at 5) (sample_request "slow-write")
                                 (world0 0)))) = 700.
Proof.
  split; [reflexivity|]. split; [reflexivity|].
  rewrite (proj1 (slow_write_sleeps_once_per_write (broken_at 5)
                    (sample_request "slow-write") _ 0 eq_refl eq_refl eq_refl)).
  reflexivity.
Defined.

(** ** Standard output *)

Lemma dump_block (dump : string) :
  writeStrs (EmptyString : Builder) ["---" +++ LF; dump; LF; "---" +++ LF]
  = "---" +++ LF +++ dump +++ LF +++ "---" +++ LF.
Proof.
  unfold writeStrs, WriteString, Builder_StringWriter. cbn [fold_left].
  rewrite !append_assoc. reflexivity.
Qed.

(** X10: A readable request is dumped to standard output once, between two
    [---] lines, before anything else happens, whatever its action; of an
    unreadable request nothing is printed. *)
Theorem request_dump_is_printed_first (env : Env) (req : Request) (c : Z) :
  let tr := trace (final (ServeHTTP env req (world0 c))) in
  match dumpResult req with
  | inl dump =>
      exists rest,
        tr = EPrintln ("---" +++ LF +++ dump +++ LF +++ "---" +++ LF) :: rest /\
        filter is_println rest = []
  | inr _ => filter is_println tr = []
  end.
Proof.
  intros tr. subst tr.
  destruct (ServeHTTP_path env req c);
    match goal with H : dumpResult req = _ |- _ => rewrite H end;
    unfold entered; rewrite ?dump_block; cbn [app];
    try (eexists; split; [reflexivity|]);
    path_trace; reflexivity.
Qed.

(** ** Error records *)

(** X11: A request leaves at most one record of level [Error]: one when it is
    unreadable, and for a readable request one per library call that failed
    (a hijack or a write), of which there is at most one. An unknown action
    is answered 400 without an [Error] record. *)
Theorem one_error_record_per_failure (env : Env) (req : Request) (c : Z) :
  let tr := trace (final (ServeHTTP env req (world0 c))) in
  (List.length (filter is_failure tr) <= 1)%nat /\
  List.length (filter is_error_log tr) =
    (if readable req then List.length (filter is_failure tr) else 1%nat).
Proof.
  intros tr. subst tr.
  destruct (ServeHTTP_path env req c); path_facts; path_trace;
    repeat match goal with
    | H : r_level _ = _ |- _ => rewrite H; clear H
    end;
    cbn [List.length app]; rewrite ?length_app; cbn [List.length];
    split; lia.
Qed.

(** ** Request identifiers over successive requests *)

Lemma ServeHTTP_counter (env : Env) (req : Request) (c : Z) :
  counter (final (ServeHTTP env req (world0 c))) = Atomic.Add c 1.
Proof.
  exact (proj1 (ServeHTTP_draws_one_identifier env req (mkProcess 0 c))).
Qed.

(** X12: Every request takes exactly one identifier from [srv.counter], also
    when it is unreadable, answered with an error or left hanging: served
    one after the other, the requests leave the counter at the identifiers
    the counter model hands out, which from a counter at [c >= 0] are
    [c+1, ..., c+n] as long as the counter does not pass the largest
    [int64]. *)
Theorem successive_requests_take_successive_identifiers
    (jobs : list (Env * Request)) (c : Z) :
  map (fun out => counter (final out)) (serve_all jobs c)
  = ids NewRequest (assign_all (mkProcess 0 c) (map (fun _ => NewRequest) jobs)) /\
  (0 <= c -> c + Z.of_nat (List.length jobs) <= Atomic.MaxInt64 ->
   map (fun out => counter (final out)) (serve_all jobs c)
   = upfrom c (List.length jobs)).
Proof.
  assert (Hmodel : forall jobs c,
    map (fun out => counter (final out)) (serve_all jobs c)
    = ids NewRequest (assign_all (mkProcess 0 c) (map (fun _ => NewRequest) jobs))).
  { clear. induction jobs as [|[env req] jobs IH]; intros c; [reflexivity|].
    cbn [serve_all map assign_all assign]. rewrite ServeHTTP_counter, IH.
    reflexivity. }
  split; [apply Hmodel|].
  intros H0 Hmax. rewrite Hmodel.
  assert (Hcount : count NewRequest (map (fun _ : Env * Request => NewRequest) jobs)
                   = List.length jobs).
  { unfold count. clear. induction jobs as [|j jobs IH]; simpl; congruence. }
  rewrite (ids_assign_all NewRequest _ (mkProcess 0 c)); rewrite ?Hcount; auto.
Qed.

(** ** Connection contexts and the identifiers in log records *)

(** X14: On a connection tagged by [ConnContext], records that [ServeHTTP] logs
    with its own context carry the request identifier and then the
    connection identifier; the records [slowWrite] logs carry the connection
    identifier only, because it logs with the context of the request as it
    came in. *)
Theorem slowWrite_logs_without_request_id
    (env : Env) (req : Request) (dump : string) (c n : Z) (base : Context) :
  dumpResult req = inl dump ->
  Get (Query req) "action" = "slow-write" ->
  hijackResult env = None ->
  assert_int64 (Value base requestIDKey) = None ->
  reqContext req = snd (ConnContext n base) ->
  exists rest,
    filter is_log (trace (final (ServeHTTP env req (world0 c)))) =
    [ ELog (mkRecord LevelInfo "handling"
              [("action", AString "slow-write");
               ("request_id", AInt64 (Atomic.Add c 1));
               ("conn_id", AInt64 (Atomic.Add n 1))]);
      ELog (mkRecord LevelInfo "hijacking connection"
              [("conn_id", AInt64 (Atomic.Add n 1))]);
      ELog (mkRecord LevelInfo "writing slow response"
              [("conn_id", AInt64 (Atomic.Add n 1))]) ] ++ rest.
Proof.
  intros Hd Ha Hh Hbase Hctx.
  assert (Hin : forall lvl msg attrs,
            log_event (reqContext req) lvl msg attrs =
            ELog (mkRecord lvl msg (attrs ++ [("conn_id", AInt64 (Atomic.Add n 1))]))).
  { intros. unfold log_event, Handle. rewrite Hctx.
    unfold ConnContext, WithValue. cbn [snd Value ctxKey_eqb].
    rewrite Hbase. reflexivity. }
  assert (Hown : forall lvl msg attrs,
            log_event (ctx_of c req) lvl msg attrs =
            ELog (mkRecord lvl msg
                    (attrs ++ [("request_id", AInt64 (Atomic.Add c 1));
                               ("conn_id", AInt64 (Atomic.Add n 1))]))).
  { intros. unfold log_event, Handle, ctx_of. rewrite Hctx.
    unfold ConnContext, WithValue. cbn [snd Value ctxKey_eqb assert_int64].
    unfold Record_Add. cbn [r_level r_message r_attrs].
    rewrite <- app_assoc. reflexivity. }
  destruct (ServeHTTP_slow_cases env req dump c Hd Ha Hh)
    as [[Hall (wr & ->)]
       | [(init & l & e & Hr & Hinit & He & wr & ->)
         | (pre & b & b' & post & e & Hr & Hpre & He & wr & ->)]];
    unfold final; rewrite trace_mkWorld;
    unfold entered, hijacking; rewrite ?Hin, ?Hown, Ha;
    repeat progress
      (rewrite ?filter_app; rewrite ?filter_paced_none by reflexivity;
       cbn [filter app is_log]);
    eexists; reflexivity.
Qed.

Lemma slowWrite_logs_without_request_id_witness :
  reqContext (sample_request "slow-write") = snd (ConnContext 0 []) /\
  exists rest,
    filter is_log (trace (final (ServeHTTP calm (sample_request "slow-write")
                                           (world0 0)))) =
    [ ELog (mkRecord LevelInfo "handling"
              [("action", AString "slow-write");
               ("request_id", AInt64 (Atomic.Add 0 1));
               ("conn_id", AInt64 (Atomic.Add 0 1))]);
      ELog (mkRecord LevelInfo "hijacking connection"
              [("conn_id", AInt64 (Atomic.Add 0 1))]);
      ELog (mkRecord LevelInfo "writing slow response"
              [("conn_id", AInt64 (Atomic.Add 0 1))]) ] ++ rest.
Proof.
  split; [reflexivity|].
  exact (slowWrite_logs_without_request_id calm (sample_request "slow-write")
           _ 0 0 [] eq_refl eq_refl eq_refl eq_refl eq_refl).
Defined.

(** X15: Before its action runs, every readable request is logged at level
    [Info] as [handling], with its action, then the identifier just drawn
    for it, whatever the incoming context held under the request key, then
    the connection identifier if the context has one. *)
Theorem handling_record_carries_the_fresh_identifier
    (env : Env) (req : Request) (dump : string) (c : Z) :
  dumpResult req = inl dump ->
  exists tail,
    nth_error (trace (final (ServeHTTP env req (world0 c)))) 1 =
    Some (ELog (mkRecord LevelInfo "handling"
                  (("action", AString (Get (Query req) "action"))
                   :: ("request_id", AInt64 (Atomic.Add c 1)) :: tail))) /\
    tail = match assert_int64 (Value (reqContext req) connIDCtxKey) with
           | Some connID => [("conn_id", AInt64 connID)]
           | None => []
           end.
Proof.
  intros Hd. eexists. split; [|reflexivity].
  assert (Hlog : log_event (ctx_of c req) LevelInfo "handling"
                   [("action", AString (Get (Query req) "action"))] =
                 ELog (mkRecord LevelInfo "handling"
                   (("action", AString (Get (Query req) "action"))
                    :: ("request_id", AInt64 (Atomic.Add c 1))
                    :: match assert_int64 (Value (reqContext req) connIDCtxKey) with
                       | Some connID => [("conn_id", AInt64 connID)]
                       | None => []
                       end))).
  { unfold log_event, Handle, ctx_of, WithValue.
    cbn [Value ctxKey_eqb assert_int64].
    destruct (assert_int64 (Value (reqContext req) connIDCtxKey)); reflexivity. }
  destruct (ServeHTTP_path env req c); try congruence;
    unfold entered; cbn [app nth_error]; rewrite Hlog; reflexivity.
Qed.

Lemma handling_record_carries_the_fresh_identifier_witness :
  dumpResult (sample_request "hang") <> inr "" /\
  nth_error (trace (final (ServeHTTP patient (sample_request "hang") (world0 41)))) 1
  = Some (ELog (mkRecord LevelInfo "handling"
                  [("action", AString "hang"); ("request_id", AInt64 42);
                   ("conn_id", AInt64 1)])).
Proof.
  split; [discriminate|].
  destruct (handling_record_carries_the_fresh_identifier patient
              (sample_request "hang") _ 41 eq_refl) as (tail & H & ->).
  exact H.
Defined.

(** ** The innermost binding decides *)

(** X16: [Handle] looks at the innermost value bound under the request key
    only: if that is an [int64] it is the [request_id] attached, and if it
    is anything else no [request_id] is attached, even when a context
    further out holds an identifier. *)
Theorem Handle_reads_the_innermost_request_id
    (R : Type) (inner : Handler R) (ctx : Context) (v : any) (record : Record_) :
  Handle inner (WithValue ctx requestIDKey v) record =
  inner (WithValue ctx requestIDKey v)
    (mkRecord (r_level record) (r_message record)
       (r_attrs record ++
        match v with
        | AInt64 reqID => [("request_id", AInt64 reqID)]
        | _ => []
        end ++
        match assert_int64 (Value ctx connIDCtxKey) with
        | Some connID => [("conn_id", AInt64 connID)]
        | None => []
        end)).
Proof.
  unfold Handle, WithValue, Record_Add. cbn [Value ctxKey_eqb].
  destruct record as [lvl msg attrs]. cbn [r_level r_message r_attrs].
  destruct v; cbn [assert_int64 app];
    destruct (assert_int64 (Value ctx connIDCtxKey));
    cbn [r_level r_message r_attrs];
    rewrite <- ?app_assoc, ?app_nil_r; reflexivity.
Qed.

(** ** A byte refused in mid-stream *)

(** X17: for a readable request with [action=slow-write]. When the hijack
    succeeded, no response reaches the client through the response writer,
    whatever the connection does. When the connection refuses a byte that
    is not the last, for the first time at byte [k], the bytes before it
    are all that is written to the connection; the next call of [w.Write]
    reports the error, so one more byte has been accepted and one more
    pause made; the handler closes the connection, logs the error at level
    [Error], hands a 500 to the hijacked response writer, where it is
    dropped, and returns. A 500 reaches the client exactly when the hijack
    itself fails. *)
Theorem slow_write_failure_is_silent
    (env : Env) (req : Request) (dump : string) (c : Z) :
  dumpResult req = inl dump ->
  Get (Query req) "action" = "slow-write" ->
  let out := ServeHTTP env req (world0 c) in
  let tr := trace (final out) in
  returns out = true /\
  (hijackResult env = None -> responses tr = []) /\
  (forall k e, hijackResult env = None ->
     (S k < List.length (resp req))%nat ->
     connWriteResult env k = Some e ->
     (forall j, (j < k)%nat -> connWriteResult env j = None) ->
     conn_written tr = firstn k (resp req) /\
     accepted tr = firstn (S k) (resp req) /\
     filter is_error_log tr =
       [log_event (ctx_of c req) LevelError "writing response"
                  [("error", AError ("writing response: " +++ e))]] /\
     (exists before, tr = before ++
        [EClose (closeResult env);
         log_event (ctx_of c req) LevelError "writing response"
                   [("error", AError ("writing response: " +++ e))];
         EDropped StatusInternalServerError
                  ("can't properly write response" +++ LF)])) /\
  ((exists body, In (StatusInternalServerError, body) (responses tr)) <->
   hijackResult env <> None).
Proof.
  intros Hd Ha out tr. subst out tr.
  destruct (hijackResult env) as [eh|] eqn:Hh.
  - rewrite (ServeHTTP_slow_not_hijacked env c req dump Hd eh Ha Hh).
    split; [reflexivity|]. split; [discriminate|].
    split; [intros k e H; discriminate H|].
    observe. split; [intros _ H; discriminate H|].
    intros _. eexists. left. reflexivity.
  - destruct (ServeHTTP_slow_cases env req dump c Hd Ha Hh)
      as [[Hall (wr & ->)]
         | [(init & l & e & Hr & Hinit & He & wr & ->)
           | (pre & b & b' & post & e & Hr & Hpre & He & wr & ->)]];
      (split; [reflexivity|]); unfold final; rewrite trace_mkWorld;
      (split; [intros _; observe; reflexivity|]);
      (split; [|observe; split; [intros [body []]|intros H; now elim H]]).
    + intros k e _ Hk Hf _. rewrite Hall in Hf by lia. discriminate.
    + intros k e0 _ Hk Hf Hfirst. exfalso.
      rewrite Hr, length_app in Hk. cbn [List.length] in Hk.
      rewrite Hinit in Hf by lia. discriminate.
    + intros k e0 _ Hk Hf Hfirst.
      assert (Hkp : k = List.length pre).
      { destruct (Nat.lt_trichotomy k (List.length pre)) as [Hlt|[Heq|Hgt]].
        - rewrite Hpre in Hf by exact Hlt. discriminate.
        - exact Heq.
        - rewrite Hfirst in He by exact Hgt. discriminate. }
      subst k. assert (e0 = e) by congruence. subst e0.
      split; [|split; [|split]].
      * observe. rewrite !app_nil_r, Hr. symmetry. apply firstn_length_app.
      * rewrite !accepted_app, accepted_paced.
        unfold entered, hijacking. name_logs.
        cbn [accepted flat_map accepted_by app]. rewrite Hr.
        change (pre ++ b :: b' :: post) with (pre ++ [b] ++ b' :: post).
        rewrite app_assoc.
        replace (S (List.length pre)) with (List.length (pre ++ [b]))
          by (rewrite length_app; simpl; lia).
        symmetry. apply firstn_length_app.
      * observe. reflexivity.
      * exists (entered c req dump ++ hijacking req ++ paced pre ++
                [ESleep 100; EWrite b None; EFlush; EConnWrite [b] (Some e);
                 ESleep 100; EWrite b' (Some e)]).
        rewrite <- !app_assoc. reflexivity.
Qed.

Lemma slow_write_failure_is_silent_witness :
  Get (Query (sample_request "slow-write")) "action" = "slow-write" /\
  connWriteResult (broken_at 5) 5 = Some "broken pipe" /\
  responses (trace (final (ServeHTTP (broken_at 5) (sample_request "slow-write")
                                     (world0 0)))) = [].
Proof.
  split; [reflexivity|]. split; [reflexivity|].
  apply (slow_write_failure_is_silent (broken_at 5) (sample_request "slow-write") _ 0
           eq_refl eq_refl).
  reflexivity.
Defined.
